(** * List Synchronizer of [src/App.tsx]

    A shallow embedding of the state-transition logic of the [App]
    component: the React state cells ([items], [selected], [originalItems],
    [page], [query]), the refs ([loadingRef], [dragItem]), the event
    handlers and the promise callbacks of the fetch effect, followed by the
    properties of the specification that concern them.  The handlers come
    twice: as functions of the state they read, and, in [Queued], as the
    component runs them between two renders, where the state cells are
    constants of the last render and the setter calls wait. *)

From Stdlib Require Import ZArith Lia.
From stdpp Require Import base gmap sets list strings.

(** ** JavaScript array primitives used by the component *)

Module JsArray.
Section Array.
Context {A : Type}.

(** [Array.prototype.findIndex]: the index of the first element that
    satisfies [p], and [-1] when there is none. *)
Fixpoint findIndex_from (p : A → bool) (l : list A) (i : Z) : Z :=
  match l with
  | [] => (-1)%Z
  | x :: l' => if p x then i else findIndex_from p l' (i + 1)%Z
  end.

Definition findIndex (p : A → bool) (l : list A) : Z :=
  findIndex_from p l 0%Z.

(** [Array.prototype.splice (start, deleteCount, ...ins)]: a negative
    [start] counts from the end, a [start] past the end is clamped to the
    length, [deleteCount] is clamped to what is left.  The result is the
    array after the mutation together with the array of removed
    elements (the value [splice] returns). *)
Definition splice (start deleteCount : Z) (ins l : list A)
  : list A * list A :=
  let len := Z.of_nat (length l) in
  let s := if (start <? 0)%Z then Z.max (len + start) 0 else Z.min start len in
  let dc := Z.min (Z.max deleteCount 0) (len - s) in
  (take (Z.to_nat s) l ++ ins ++ drop (Z.to_nat (s + dc)) l,
   take (Z.to_nat dc) (drop (Z.to_nat s) l)).
End Array.
End JsArray.
Import JsArray.

(** ** Data model *)

(** [type Item = { id: number; name: string }] *)
Record Item := mkItem { id : Z; name : string }.

(** The request [GET /items?page=${page}&query=${query}]: the values of
    [page] and [query] captured by the effect closure that issued it. *)
Record Request := mkRequest { req_page : Z; req_query : string }.

(** [res.data] of a fulfilled [GET /items]. *)
Record Response := mkResponse { res_items : list Item; res_selected : list Z }.

(** Fire-and-forget [api.post] calls. *)
Inductive Post :=
| SaveSelection (sel : list Z)   (* POST /save-selection { selected } *)
| SaveOrder (order : list Z).    (* POST /save-order { order } *)

(** The state of the component: the five [useState] cells, the two data
    refs, and the interaction with the outside world ([inflight]: the
    [GET /items] promises that have not settled yet; [posts]: the POST
    calls issued so far, oldest first; [console]: the [console.error]
    calls, oldest first). *)
Record State := mkState {
  items : list Item;
  selected : gset Z;
  originalItems : list Item;
  page : Z;
  query : string;
  loadingRef : bool;
  dragItem : option Z;
  inflight : list Request;
  posts : list Post;
  console : list (string * string)
}.

(** [useState] initial values and [useRef] initial values. *)
Definition init : State :=
  {| items := []; selected := ∅; originalItems := []; page := 1; query := "";
     loadingRef := false; dragItem := None;
     inflight := []; posts := []; console := [] |}.

(** *** State setters *)

Definition setItems (v : list Item) (st : State) : State :=
  {| items := v; selected := selected st; originalItems := originalItems st;
     page := page st; query := query st; loadingRef := loadingRef st;
     dragItem := dragItem st; inflight := inflight st; posts := posts st;
     console := console st |}.

Definition setSelected (v : gset Z) (st : State) : State :=
  {| items := items st; selected := v; originalItems := originalItems st;
     page := page st; query := query st; loadingRef := loadingRef st;
     dragItem := dragItem st; inflight := inflight st; posts := posts st;
     console := console st |}.

Definition setOriginalItems (v : list Item) (st : State) : State :=
  {| items := items st; selected := selected st; originalItems := v;
     page := page st; query := query st; loadingRef := loadingRef st;
     dragItem := dragItem st; inflight := inflight st; posts := posts st;
     console := console st |}.

Definition setPage (v : Z) (st : State) : State :=
  {| items := items st; selected := selected st;
     originalItems := originalItems st;
     page := v; query := query st; loadingRef := loadingRef st;
     dragItem := dragItem st; inflight := inflight st; posts := posts st;
     console := console st |}.

Definition setQuery (v : string) (st : State) : State :=
  {| items := items st; selected := selected st;
     originalItems := originalItems st;
     page := page st; query := v; loadingRef := loadingRef st;
     dragItem := dragItem st; inflight := inflight st; posts := posts st;
     console := console st |}.

(** [loadingRef.current = v] *)
Definition setLoading (v : bool) (st : State) : State :=
  {| items := items st; selected := selected st;
     originalItems := originalItems st;
     page := page st; query := query st; loadingRef := v;
     dragItem := dragItem st; inflight := inflight st; posts := posts st;
     console := console st |}.

(** [dragItem.current = v] *)
Definition setDragItem (v : option Z) (st : State) : State :=
  {| items := items st; selected := selected st;
     originalItems := originalItems st;
     page := page st; query := query st; loadingRef := loadingRef st;
     dragItem := v; inflight := inflight st; posts := posts st;
     console := console st |}.

Definition setInflight (v : list Request) (st : State) : State :=
  {| items := items st; selected := selected st;
     originalItems := originalItems st;
     page := page st; query := query st; loadingRef := loadingRef st;
     dragItem := dragItem st; inflight := v; posts := posts st;
     console := console st |}.

(** [api.post (...)]: the call is issued and its promise is dropped. *)
Definition apiPost (p : Post) (st : State) : State :=
  {| items := items st; selected := selected st;
     originalItems := originalItems st;
     page := page st; query := query st; loadingRef := loadingRef st;
     dragItem := dragItem st; inflight := inflight st;
     posts := posts st ++ [p]; console := console st |}.

(** [console.error (msg, error)] *)
Definition consoleError (msg err : string) (st : State) : State :=
  {| items := items st; selected := selected st;
     originalItems := originalItems st;
     page := page st; query := query st; loadingRef := loadingRef st;
     dragItem := dragItem st; inflight := inflight st; posts := posts st;
     console := console st ++ [(msg, err)] |}.

(** ** Drag and drop *)

(** [handleDragStart]: [dragItem.current = id]. *)
Definition handleDragStart (i : Z) (st : State) : State :=
  setDragItem (Some i) st.

(** [handleDrop (e, targetId)].  Both indices are looked up in [items]
    before anything is removed; the first [splice] takes the dragged item
    out, the second puts it back at [targetItemIndex].  The destructuring
    [const [movedItem] = ...] takes the head of the removed elements; the
    first [splice] is only reached with [draggedItemIndex] a valid index,
    so that array is never empty (lemma [splice_remove_at] below) and the
    last branch is not reachable. *)
Definition handleDrop (targetId : Z) (st : State) : State :=
  match dragItem st with
  | None => st
  | Some draggedItemId =>
    if (draggedItemId =? targetId)%Z then st else
    let draggedItemIndex :=
      findIndex (λ item, (id item =? draggedItemId)%Z) (items st) in
    let targetItemIndex :=
      findIndex (λ item, (id item =? targetId)%Z) (items st) in
    if (draggedItemIndex =? -1)%Z || (targetItemIndex =? -1)%Z then st else
    let newItems := items st in
    let '(newItems, removed) := splice draggedItemIndex 1 [] newItems in
    match removed with
    | movedItem :: _ =>
      let '(newItems, _) := splice targetItemIndex 0 [movedItem] newItems in
      apiPost (SaveOrder (id <$> newItems)) (setItems newItems st)
    | [] => st
    end
  end.

(** The operation [reorder (draggedId, targetId)] of the specification: a
    drag that starts on the item [draggedId] and is dropped on the item
    [targetId]. *)
Definition reorder (draggedId targetId : Z) (st : State) : State :=
  handleDrop targetId (handleDragStart draggedId st).

(** The move as the specification words it: the dragged item is taken out
    and put back immediately before the position that the target item has
    once the dragged item is gone (the target is looked up again in the
    array after the removal).  Not taken from the source; it is compared
    with [handleDrop] below. *)
Definition moveBeforeTarget (draggedId targetId : Z) (l : list Item)
  : list Item :=
  let draggedItemIndex :=
    findIndex (λ item, (id item =? draggedId)%Z) l in
  if (draggedItemIndex =? -1)%Z then l else
  let '(rest, removed) := splice draggedItemIndex 1 [] l in
  let targetPostRemoval :=
    findIndex (λ item, (id item =? targetId)%Z) rest in
  if (targetPostRemoval =? -1)%Z then l else
  match removed with
  | movedItem :: _ => (splice targetPostRemoval 0 [movedItem] rest).1
  | [] => l
  end.

(** ** Fetching *)

(** The body of [useEffect (() => {...}, [api, page, query])].  The guard
    on [loadingRef.current] returns early; otherwise the flag is raised and
    the request for the current [page] and [query] is issued. *)
Definition fetchEffect (st : State) : State :=
  if loadingRef st then st
  else
    let st := setLoading true st in
    setInflight (inflight st ++ [mkRequest (page st) (query st)]) st.

(** The callback of [.then]: [page] is the value captured by the closure of
    the effect that issued the request, [prev] is the array at the time the
    response is applied. *)
Definition onFulfilled (req : Request) (res : Response) (st : State) : State :=
  let st :=
    setItems (let prev := items st in
              if (req_page req =? 1)%Z then res_items res
              else prev ++ res_items res) st in
  let st := setOriginalItems (res_items res) st in
  setSelected (list_to_set (res_selected res)) st.

(** The callback of [.catch]. *)
Definition onRejected (error : string) (st : State) : State :=
  consoleError "Ошибка загрузки данных:" error st.

(** The callback of [.finally]. *)
Definition onFinally (st : State) : State :=
  setLoading false st.

(** The body of [useEffect (() => { setPage (1) }, [query])]. *)
Definition queryEffect (st : State) : State :=
  setPage 1 st.

(** ** Scrolling, selection, search *)

(** The three properties of [listRef.current] that [handleScroll] reads.
    They are pixel counts, taken here as integers. *)
Record ScrollMetrics := mkScroll {
  scrollTop : Z; scrollHeight : Z; clientHeight : Z
}.

(** [handleScroll]; [current] is [listRef.current] ([None] for [null]). *)
Definition handleScroll (current : option ScrollMetrics) (st : State)
  : State :=
  match current with
  | Some el =>
    if negb (loadingRef st) then
      if (scrollHeight el - 10 <=? scrollTop el + clientHeight el)%Z
      then setPage (page st + 1) st
      else st
    else st
  | None => st
  end.

(** [handleToggleSelect] when its updater runs once, on the selection of
    the state: the updater copies [prev], flips the membership of [id],
    posts the whole new set and returns it.  The handler itself only hands
    the updater to [setSelected]; [Queued.handleToggleSelect] below keeps
    the two apart.  [Array.from (newSet)] lists the set in insertion order;
    here the body of the POST lists it in the order of [elements], the set
    itself being what matters. *)
Definition handleToggleSelect (i : Z) (st : State) : State :=
  let prev := selected st in
  let newSet := if decide (i ∈ prev) then prev ∖ {[i]} else prev ∪ {[i]} in
  setSelected newSet (apiPost (SaveSelection (elements newSet)) st).

(** [handleSearchChange]; [value] is [e.target.value].  [!query] holds for
    the empty string only. *)
Definition handleSearchChange (value : string) (st : State) : State :=
  let st' := setPage 1 (setQuery value st) in
  if String.eqb value "" then setItems (originalItems st) st' else st'.

(** The operations of the specification. *)
Definition toggleSelection := handleToggleSelect.
Definition onQueryChange := handleSearchChange.

(** ** The component as a transition system *)

(** What can happen to the component.  The effects are events of their
    own: [api] is a new object at every render, so the fetch effect runs
    after every render; letting it run at any time covers every schedule.
    [EvResolve i res] and [EvReject i error] settle the [i]-th pending
    request: the [.then] or [.catch] callback runs, then the [.finally]
    callback; the two run as consecutive microtasks, so no handler runs
    in between.

    [step] and [run] below are the component on the schedule where a
    render follows every event, so that every handler reads the state the
    event before it has left (lemma [step_is_event_then_render]).  The
    component between renders, where a handler reads the constants of
    the last render while the updates queue up, is [Queued]. *)
Inductive Event :=
| EvFetchEffect
| EvQueryEffect
| EvResolve (i : nat) (res : Response)
| EvReject (i : nat) (error : string)
| EvScroll (current : option ScrollMetrics)
| EvToggleSelect (i : Z)
| EvDragStart (i : Z)
| EvDrop (targetId : Z)
| EvSearchChange (value : string).

(** One event; [None] when a request that is not pending is settled. *)
Definition step (st : State) (ev : Event) : option State :=
  match ev with
  | EvFetchEffect => Some (fetchEffect st)
  | EvQueryEffect => Some (queryEffect st)
  | EvResolve i res =>
    req ← inflight st !! i;
    Some (onFinally (onFulfilled req res (setInflight (delete i (inflight st)) st)))
  | EvReject i error =>
    _ ← inflight st !! i;
    Some (onFinally (onRejected error (setInflight (delete i (inflight st)) st)))
  | EvScroll current => Some (handleScroll current st)
  | EvToggleSelect i => Some (handleToggleSelect i st)
  | EvDragStart i => Some (handleDragStart i st)
  | EvDrop targetId => Some (handleDrop targetId st)
  | EvSearchChange value => Some (handleSearchChange value st)
  end.

(** A sequence of events, oldest first. *)
Fixpoint run (evs : list Event) (st : State) : option State :=
  match evs with
  | [] => Some st
  | ev :: evs' => st' ← step st ev; run evs' st'
  end.

(** The ids of an array of items, in order. *)
Definition ids (l : list Item) : list Z := id <$> l.

(** The number of times [i] is toggled in a sequence of toggles. *)
Definition toggles (i : Z) (l : list Z) : nat :=
  length (filter (λ j, j = i) l).

(** A sequence of toggles, oldest first. *)
Definition toggleAll (l : list Z) (st : State) : State :=
  foldl (λ s j, toggleSelection j s) st l.

(** The two states of the fetch machine: [Idle], with the flag down and no
    request pending, and [Fetching], with the flag up and one request
    pending. *)
Definition Idle (st : State) : Prop :=
  loadingRef st = false ∧ inflight st = [].

Definition Fetching (st : State) : Prop :=
  loadingRef st = true ∧ ∃ req, inflight st = [req].

(** ** The component between renders *)

(** One run of the updater that [handleToggleSelect] hands to
    [setSelected]: from [prev] to the set it returns and the POST it
    sends on the way. *)
Definition toggleUpdater (i : Z) (prev : gset Z) : gset Z * Post :=
  let newSet := if decide (i ∈ prev) then prev ∖ {[i]} else prev ∪ {[i]} in
  (newSet, SaveSelection (elements newSet)).

Module Queued.

(** A call of a state setter.  It does not change what the handlers see:
    [items], [selected], [originalItems], [page] and [query] are constants
    of the last render, and the call waits for the next one. *)
Inductive Update :=
| USetItems (v : list Item)          (* setItems (v) *)
| UFetchedItems (pg : Z) (fetched : list Item)
    (* setItems ((prev) => page === 1 ? fetched : [...prev, ...fetched]) *)
| USetOriginalItems (v : list Item)  (* setOriginalItems (v) *)
| USetSelected (v : gset Z)          (* setSelected (v) *)
| UToggleSelected (i : Z)            (* setSelected ((prev) => {...}) *)
| USetPage (v : Z)                   (* setPage (v) *)
| UNextPage                          (* setPage ((prev) => prev + 1) *)
| USetQuery (v : string).            (* setQuery (v) *)

(** The component: in [shown], the five state cells hold the values of
    the last render, which are what every closure reads, while the refs
    and the outside world ([loadingRef], [dragItem], [inflight], [posts],
    [console]) are current; [pending] holds the setter calls made since
    that render, oldest first. *)
Record Comp := mkComp { shown : State; pending : list Update }.

Definition init : Comp := mkComp init [].

(** What a setter call does to a cell when React processes it.  An
    updater receives the value that the calls before it have left. *)
Definition applyUpdate (u : Update) (st : State) : State :=
  match u with
  | USetItems v => setItems v st
  | UFetchedItems pg fetched =>
    setItems (let prev := items st in
              if (pg =? 1)%Z then fetched else prev ++ fetched) st
  | USetOriginalItems v => setOriginalItems v st
  | USetSelected v => setSelected v st
  | UToggleSelected i =>
    let '(newSet, p) := toggleUpdater i (selected st) in
    setSelected newSet (apiPost p st)
  | USetPage v => setPage v st
  | UNextPage => setPage (let prev := page st in prev + 1)%Z st
  | USetQuery v => setQuery v st
  end.

Definition applyAll (q : list Update) (st : State) : State :=
  foldl (λ s u, applyUpdate u s) st q.

(** A render: the pending calls are processed in the order they were
    made and the closures of the new render see the result. *)
Definition render (c : Comp) : Comp :=
  mkComp (applyAll (pending c) (shown c)) [].

(** A setter call. *)
Definition enqueue (u : Update) (c : Comp) : Comp :=
  mkComp (shown c) (pending c ++ [u]).

(** A write to a ref, or a call to the outside world: it happens at
    once. *)
Definition live (f : State → State) (c : Comp) : Comp :=
  mkComp (f (shown c)) (pending c).

(** The fetch effect reads [page] and [query] of its render and the
    current [loadingRef]; it calls no setter. *)
Definition fetchEffect (c : Comp) : Comp := live fetchEffect c.

(** The callback of [.then]: three setter calls. *)
Definition onFulfilled (req : Request) (res : Response) (c : Comp) : Comp :=
  let c := enqueue (UFetchedItems (req_page req) (res_items res)) c in
  let c := enqueue (USetOriginalItems (res_items res)) c in
  enqueue (USetSelected (list_to_set (res_selected res))) c.

Definition onRejected (error : string) (c : Comp) : Comp :=
  live (onRejected error) c.

Definition onFinally (c : Comp) : Comp := live onFinally c.

Definition queryEffect (c : Comp) : Comp := enqueue (USetPage 1) c.

Definition handleScroll (current : option ScrollMetrics) (c : Comp) : Comp :=
  match current with
  | Some el =>
    if negb (loadingRef (shown c)) then
      if (scrollHeight el - 10 <=? scrollTop el + clientHeight el)%Z
      then enqueue UNextPage c
      else c
    else c
  | None => c
  end.

Definition handleToggleSelect (i : Z) (c : Comp) : Comp :=
  enqueue (UToggleSelected i) c.

Definition handleDragStart (i : Z) (c : Comp) : Comp :=
  live (handleDragStart i) c.

(** [handleDrop]: [items] is the constant of the last render; the POST
    goes out at once, [setItems (newItems)] waits. *)
Definition handleDrop (targetId : Z) (c : Comp) : Comp :=
  match dragItem (shown c) with
  | None => c
  | Some draggedItemId =>
    if (draggedItemId =? targetId)%Z then c else
    let draggedItemIndex :=
      findIndex (λ item, (id item =? draggedItemId)%Z) (items (shown c)) in
    let targetItemIndex :=
      findIndex (λ item, (id item =? targetId)%Z) (items (shown c)) in
    if (draggedItemIndex =? -1)%Z || (targetItemIndex =? -1)%Z then c else
    let newItems := items (shown c) in
    let '(newItems, removed) := splice draggedItemIndex 1 [] newItems in
    match removed with
    | movedItem :: _ =>
      let '(newItems, _) := splice targetItemIndex 0 [movedItem] newItems in
      live (apiPost (SaveOrder (id <$> newItems)))
        (enqueue (USetItems newItems) c)
    | [] => c
    end
  end.

(** [handleSearchChange]: [originalItems] is the constant of the last
    render. *)
Definition handleSearchChange (value : string) (c : Comp) : Comp :=
  let c' := enqueue (USetPage 1) (enqueue (USetQuery value) c) in
  if String.eqb value "" then enqueue (USetItems (originalItems (shown c))) c'
  else c'.

(** Whether an updater of [handleToggleSelect] for [i] is waiting. *)
Definition toggleWaiting (i : Z) (q : list Update) : bool :=
  existsb (λ u, match u with
                | UToggleSelected j => (j =? i)%Z
                | _ => false
                end) q.

(** What can happen: an event of the component, a render, or one more run
    by React of a waiting updater of [handleToggleSelect], on some value
    [prev] of its choice, whose result is thrown away but whose POST is
    sent. *)
Inductive Ev :=
| Do (ev : Event)
| Render
| RunUpdater (i : Z) (prev : gset Z).

Definition step (c : Comp) (e : Ev) : option Comp :=
  match e with
  | Do EvFetchEffect => Some (fetchEffect c)
  | Do EvQueryEffect => Some (queryEffect c)
  | Do (EvResolve i res) =>
    req ← inflight (shown c) !! i;
    Some (onFinally
            (onFulfilled req res
               (live (setInflight (delete i (inflight (shown c)))) c)))
  | Do (EvReject i error) =>
    _ ← inflight (shown c) !! i;
    Some (onFinally
            (onRejected error
               (live (setInflight (delete i (inflight (shown c)))) c)))
  | Do (EvScroll current) => Some (handleScroll current c)
  | Do (EvToggleSelect i) => Some (handleToggleSelect i c)
  | Do (EvDragStart i) => Some (handleDragStart i c)
  | Do (EvDrop targetId) => Some (handleDrop targetId c)
  | Do (EvSearchChange value) => Some (handleSearchChange value c)
  | Render => Some (render c)
  | RunUpdater i prev =>
    if toggleWaiting i (pending c)
    then Some (live (apiPost (toggleUpdater i prev).2) c)
    else None
  end.

Fixpoint run (evs : list Ev) (c : Comp) : option Comp :=
  match evs with
  | [] => Some c
  | e :: evs' => c' ← step c e; run evs' c'
  end.

(** The items of the last fulfilled fetch of a run ([acc] when there is
    none). *)
Fixpoint lastFetched (evs : list Ev) (acc : list Item) : list Item :=
  match evs with
  | [] => acc
  | Do (EvResolve _ res) :: evs' => lastFetched evs' (res_items res)
  | _ :: evs' => lastFetched evs' acc
  end.

(** The value that the waiting calls leave in [originalItems]. *)
Fixpoint queuedOriginal (q : list Update) (acc : list Item) : list Item :=
  match q with
  | [] => acc
  | USetOriginalItems v :: q' => queuedOriginal q' v
  | _ :: q' => queuedOriginal q' acc
  end.

Definition writesOriginal (u : Update) : bool :=
  match u with USetOriginalItems _ => true | _ => false end.

(** Every fulfilled fetch has been rendered: no [setOriginalItems] is
    waiting. *)
Definition fetchesShown (c : Comp) : Prop :=
  Forall (λ u, writesOriginal u = false) (pending c).

(** The waiting calls can be processed from [st] without repeating an id:
    whenever fetched items are appended, none of their ids is in the
    array they are appended to. *)
Fixpoint freshQueue (q : list Update) (st : State) : Prop :=
  match q with
  | [] => True
  | u :: q' =>
    match u with
    | UFetchedItems pg fetched =>
      (pg =? 1)%Z = false →
      ∀ x, x ∈ ids fetched → x ∉ ids (items st)
    | _ => True
    end
    ∧ freshQueue q' (applyUpdate u st)
  end.

(** A fulfilled response carries pairwise distinct ids, and a render
    appends no id to an array that holds it. *)
Definition freshStep (c : Comp) (e : Ev) : Prop :=
  match e with
  | Do (EvResolve _ res) => NoDup (ids (res_items res))
  | Render => freshQueue (pending c) (shown c)
  | _ => True
  end.

Fixpoint freshRun (evs : list Ev) (c : Comp) : Prop :=
  match evs with
  | [] => True
  | e :: evs' =>
    freshStep c e ∧
    match step c e with
    | Some c' => freshRun evs' c'
    | None => True
    end
  end.

(** The arrays that the waiting calls carry. *)
Definition carriesUnique (u : Update) : Prop :=
  match u with
  | USetItems v | UFetchedItems _ v | USetOriginalItems v => NoDup (ids v)
  | _ => True
  end.

End Queued.

(** *** Sample data *)

Definition item1 := mkItem 1 "A".
Definition item2 := mkItem 2 "B".
Definition item3 := mkItem 3 "C".
Definition item4 := mkItem 4 "D".
Definition st1234 : State := setItems [item1; item2; item3; item4] init.

Definition res12 : Response := mkResponse [item1; item2] [2%Z].
Definition res34 : Response := mkResponse [item3; item4] [].
Definition res23 : Response := mkResponse [item2; item3] [].

(** A scroll position 0 px away from the bottom of the list. *)
Definition atBottom : ScrollMetrics := mkScroll 100 550 450.

(** The first fetch is pending. *)
Definition stPage1Pending : State := fetchEffect init.

(** Page 1 has arrived, the list was scrolled to the bottom and the fetch
    of page 2 is pending. *)
Definition evsPage2Pending : list Event :=
  [EvFetchEffect; EvQueryEffect; EvResolve 0 res12;
   EvScroll (Some atBottom); EvFetchEffect].

Definition stPage2Pending : State :=
  fetchEffect
    (handleScroll (Some atBottom)
       (onFinally (onFulfilled (mkRequest 1 "") res12
          (setInflight [] (queryEffect (fetchEffect init)))))).

(** Page 1 has arrived with items 1 and 2, the list was scrolled to the
    bottom, and page 2 has arrived with items 2 and 3. *)
Definition evsOverlap : list Event :=
  [EvFetchEffect; EvQueryEffect; EvResolve 0 res12;
   EvScroll (Some atBottom); EvFetchEffect; EvResolve 0 res23].

Definition stOverlap : State :=
  {| items := [item1; item2; item2; item3]; selected := list_to_set [];
     originalItems := [item2; item3]; page := 2; query := "";
     loadingRef := false; dragItem := None; inflight := []; posts := [];
     console := [] |}.

(** The ids of [items] and of [originalItems] are pairwise distinct. *)
Definition uniqueIds (st : State) : Prop :=
  NoDup (ids (items st)) ∧ NoDup (ids (originalItems st)).

(** The keys of the rendered list, [key={`${item.id}-${index}`}], one per
    element of [items.map ((item, index) => ...)].  A key is kept as the
    pair of the two numbers that the template string joins with a dash. *)
Definition renderKeys (l : list Item) : list (Z * nat) :=
  imap (λ index item, (id item, index)) l.

(** ** The rendered list *)

(** What [ListItem] renders for one item: the [data-id] attribute of the
    row, the [checked] attribute of its checkbox and its text. *)
Record ListItemView := mkView {
  view_dataId : Z; view_checked : bool; view_text : string
}.

(** The output of the [ListItem] component: [data-id={item.id}],
    [checked={selected.has (item.id)}] and [{item.name}]. *)
Definition ListItem (item : Item) (sel : gset Z) : ListItemView :=
  {| view_dataId := id item;
     view_checked := bool_decide (id item ∈ sel);
     view_text := name item |}.

(** [items.map ((item, index) => <ListItem item={item} selected={selected}
    ... />)]; the keys of the rows are [renderKeys]. *)
Definition renderList (st : State) : list ListItemView :=
  (λ item, ListItem item (selected st)) <$> items st.

(** The callbacks that the row at index [n] gives to its elements:
    [onChange={() => onToggleSelect (item.id)}],
    [onDragStart={() => onDragStart (item.id)}] and
    [onDrop={(e) => onDrop (e, item.id)}], with [item] the element of
    [items] at [n].  There is no row, and no callback, past the end. *)
Definition rowChange (n : nat) (st : State) : State :=
  match items st !! n with
  | Some item => handleToggleSelect (id item) st
  | None => st
  end.

Definition rowDragStart (n : nat) (st : State) : State :=
  match items st !! n with
  | Some item => handleDragStart (id item) st
  | None => st
  end.

Definition rowDrop (n : nat) (st : State) : State :=
  match items st !! n with
  | Some item => handleDrop (id item) st
  | None => st
  end.

(** ** Observations on runs *)

(** The id of the last drag that started in a run ([acc] when none did). *)
Fixpoint lastDragStart (evs : list Event) (acc : option Z) : option Z :=
  match evs with
  | [] => acc
  | EvDragStart i :: evs' => lastDragStart evs' (Some i)
  | _ :: evs' => lastDragStart evs' acc
  end.

(** The errors of the rejected fetches of a run, oldest first. *)
Fixpoint rejections (evs : list Event) : list string :=
  match evs with
  | [] => []
  | EvReject _ error :: evs' => error :: rejections evs'
  | _ :: evs' => rejections evs'
  end.

(** Items 1 and 2 carry the same id. *)
Definition item1' := mkItem 1 "A bis".
Definition stTwins : State := setItems [item1; item2; item1'; item4] init.

(** Page 1 has arrived with items 1 and 2; item 1 was dragged and dropped
    on item 2, and a second drop on item 2 followed with no drag in
    between. *)
Definition evsDroppedTwice : list Event :=
  [EvFetchEffect; EvResolve 0 res12; EvDragStart 1; EvDrop 2; EvDrop 2].

Definition stDroppedTwice : State :=
  handleDrop 2
    (handleDrop 2
       (handleDragStart 1
          (onFinally (onFulfilled (mkRequest 1 "") res12
             (setInflight [] (fetchEffect init)))))).

(** The first fetch failed, the next one brought page 1. *)
Definition evsFailedOnce : list Event :=
  [EvFetchEffect; EvReject 0 "Network Error"; EvFetchEffect;
   EvResolve 0 res12].

Definition stFailedOnce : State :=
  onFinally (onFulfilled (mkRequest 1 "") res12
    (setInflight []
       (fetchEffect
          (onFinally (onRejected "Network Error"
             (setInflight [] (fetchEffect init))))))).

(** Page 1 has arrived and "a" was typed; its first page has arrived, the
    list was scrolled and page 2 has arrived, every step rendered. *)
Definition evsSearchScrolled : list Queued.Ev :=
  [Queued.Do EvFetchEffect; Queued.Do (EvResolve 0 res12); Queued.Render;
   Queued.Do (EvSearchChange "a"); Queued.Render;
   Queued.Do EvFetchEffect; Queued.Do (EvResolve 0 res12); Queued.Render;
   Queued.Do (EvScroll (Some atBottom)); Queued.Render;
   Queued.Do EvFetchEffect; Queued.Do (EvResolve 0 res34); Queued.Render].

Definition stSearchScrolled : Queued.Comp :=
  Queued.mkComp
    {| items := [item1; item2; item3; item4]; selected := list_to_set [];
       originalItems := [item3; item4]; page := 2; query := "a";
       loadingRef := false; dragItem := None; inflight := []; posts := [];
       console := [] |} [].

(** The same, except that the search box is cleared after page 2 has
    arrived and before it is rendered. *)
Definition evsClearBeforeRender : list Queued.Ev :=
  [Queued.Do EvFetchEffect; Queued.Do (EvResolve 0 res12); Queued.Render;
   Queued.Do (EvSearchChange "a"); Queued.Render;
   Queued.Do EvFetchEffect; Queued.Do (EvResolve 0 res12); Queued.Render;
   Queued.Do (EvScroll (Some atBottom)); Queued.Render;
   Queued.Do EvFetchEffect; Queued.Do (EvResolve 0 res34);
   Queued.Do (EvSearchChange ""); Queued.Render].

Definition stClearBeforeRender : Queued.Comp :=
  Queued.mkComp
    {| items := [item1; item2]; selected := list_to_set [];
       originalItems := [item3; item4]; page := 1; query := "";
       loadingRef := false; dragItem := None; inflight := []; posts := [];
       console := [] |} [].

(** Page 1 has arrived with the items 1 and 2 and was rendered; it is
    fetched again and arrives with the items 3 and 4; before the render,
    item 1 is dropped on item 2. *)
Definition evsDropBeforeRender : list Queued.Ev :=
  [Queued.Do EvFetchEffect; Queued.Do (EvResolve 0 res12); Queued.Render;
   Queued.Do EvFetchEffect; Queued.Do (EvResolve 0 res34);
   Queued.Do (EvDragStart 1); Queued.Do (EvDrop 2); Queued.Render].

(** Then the list is scrolled and page 2 arrives with the items 1 and 5. *)
Definition item5 := mkItem 5 "E".
Definition res15 : Response := mkResponse [item1; item5] [].

Definition evsDropThenAppend : list Queued.Ev :=
  evsDropBeforeRender
  ++ [Queued.Do (EvScroll (Some atBottom)); Queued.Render;
      Queued.Do EvFetchEffect; Queued.Do (EvResolve 0 res15);
      Queued.Render].

(** Page 1 is shown; the checkbox of item 1 is clicked, and React runs the
    updater once on the empty set before the render runs it on the
    selection of page 1. *)
Definition evsToggleRunTwice : list Queued.Ev :=
  [Queued.Do EvFetchEffect; Queued.Do (EvResolve 0 res12);
   Queued.Do (EvToggleSelect 1); Queued.RunUpdater 1 ∅; Queued.Render].

(** ** Proof automation *)

(** Membership goals over the sets that a toggle builds. *)
Ltac solve_member :=
  rewrite ?elem_of_difference, ?elem_of_union, ?elem_of_singleton;
  intuition congruence.

(** [NoDup] and non-membership for lists of integer literals. *)
Ltac solve_NoDup :=
  repeat first
    [ apply NoDup_nil_2
    | apply NoDup_cons_2;
      [ let H := fresh in
        intros H%list_elem_of_In; simpl in H; intuition lia | ] ].

(** * Properties *)

Example reorder_1_3 :
  items (reorder 1 3 st1234) = [item2; item3; item1; item4].
Proof. reflexivity. Qed.

Example reorder_4_2 :
  items (reorder 4 2 st1234) = [item1; item4; item2; item3].
Proof. reflexivity. Qed.

Example moveBeforeTarget_1_3 :
  moveBeforeTarget 1 3 [item1; item2; item3; item4]
  = [item2; item1; item3; item4].
Proof. reflexivity. Qed.

(** ** Array primitives *)

Section ArrayFacts.
Context {A : Type}.
Implicit Types (p : A → bool) (l : list A).

Lemma findIndex_from_cases p l (i : Z) :
  (0 ≤ i)%Z →
  (findIndex_from p l i = (-1)%Z ∧ Forall (λ x, p x = false) l)
  ∨ (∃ (n : nat) x, findIndex_from p l i = (i + Z.of_nat n)%Z
                    ∧ l !! n = Some x ∧ p x = true).
Proof.
  revert i. induction l as [|a l IH]; intros i Hi; simpl.
  - left. by split.
  - destruct (p a) eqn:Hpa.
    + right. exists 0%nat, a. split_and!; [lia | done | done].
    + destruct (IH (i + 1)%Z ltac:(lia)) as [[E F] | (n & x & E & L & P)].
      * left. split; [done | by constructor].
      * right. exists (S n), x. split_and!; [lia | done | done].
Qed.

Lemma findIndex_cases p l :
  (findIndex p l = (-1)%Z ∧ Forall (λ x, p x = false) l)
  ∨ (∃ (n : nat) x, findIndex p l = Z.of_nat n ∧ l !! n = Some x
                    ∧ p x = true).
Proof.
  unfold findIndex.
  destruct (findIndex_from_cases p l 0 ltac:(lia))
    as [? | (n & x & E & ?)]; [by left |].
  right. exists n, x. split; [lia | done].
Qed.

(** Deleting one element at a valid index: the array loses that element
    and [splice] returns it. *)
Lemma splice_remove_at l (n : nat) x :
  l !! n = Some x →
  splice (Z.of_nat n) 1 [] l = (delete n l, [x]).
Proof.
  intros L. pose proof (lookup_lt_Some _ _ _ L) as Hlt.
  unfold splice.
  replace (Z.of_nat n <? 0)%Z with false by lia.
  replace (Z.min (Z.of_nat n) (Z.of_nat (length l))) with (Z.of_nat n) by lia.
  replace (Z.min (Z.max 1 0) (Z.of_nat (length l) - Z.of_nat n)) with 1%Z
    by lia.
  replace (Z.to_nat (Z.of_nat n + 1)) with (S n) by lia.
  rewrite Nat2Z.id. change (Z.to_nat 1) with 1%nat. simpl.
  f_equal.
  - by rewrite delete_take_drop.
  - rewrite (drop_S _ _ _ L). simpl. by rewrite take_0.
Qed.

(** Inserting one element at an index within the array. *)
Lemma splice_insert_at l (n : nat) x :
  n ≤ length l →
  splice (Z.of_nat n) 0 [x] l = (take n l ++ x :: drop n l, []).
Proof.
  intros Hle. unfold splice.
  replace (Z.of_nat n <? 0)%Z with false by lia.
  replace (Z.min (Z.of_nat n) (Z.of_nat (length l))) with (Z.of_nat n) by lia.
  replace (Z.min (Z.max 0 0) (Z.of_nat (length l) - Z.of_nat n)) with 0%Z
    by lia.
  rewrite Z.add_0_r, Nat2Z.id. simpl. by rewrite take_0.
Qed.
End ArrayFacts.

(** ** Looking items up by id *)

Lemma findIndex_id_absent (l : list Item) (a : Z) :
  a ∉ ids l → findIndex (λ item, (id item =? a)%Z) l = (-1)%Z.
Proof.
  intros Hn.
  destruct (findIndex_cases (λ item, (id item =? a)%Z) l)
    as [[E _] | (n & x & _ & L & P)]; [done |].
  exfalso. apply Hn. apply Z.eqb_eq in P. subst a.
  apply list_elem_of_fmap. exists x. split; [done |].
  by eapply list_elem_of_lookup_2.
Qed.

Lemma findIndex_id_present (l : list Item) (a : Z) :
  a ∈ ids l →
  ∃ (n : nat) x, findIndex (λ item, (id item =? a)%Z) l = Z.of_nat n
                 ∧ l !! n = Some x ∧ id x = a.
Proof.
  intros Hin.
  destruct (findIndex_cases (λ item, (id item =? a)%Z) l)
    as [[_ F] | (n & x & E & L & P)].
  - exfalso. apply list_elem_of_fmap in Hin as (y & -> & Hy).
    rewrite Forall_forall in F. specialize (F y Hy). simpl in F. lia.
  - exists n, x. apply Z.eqb_eq in P. done.
Qed.

(** ** What a drop does to [items] *)

(** A drop that goes through: the dragged item, found at [di], is put back
    at [ti], the index the target had in the array before the removal. *)
Lemma handleDrop_move (targetId draggedId : Z) (st : State) (di ti : nat) x :
  dragItem st = Some draggedId → draggedId ≠ targetId →
  findIndex (λ item, (id item =? draggedId)%Z) (items st) = Z.of_nat di →
  findIndex (λ item, (id item =? targetId)%Z) (items st) = Z.of_nat ti →
  items st !! di = Some x → ti < length (items st) →
  handleDrop targetId st
  = let newItems :=
      take ti (delete di (items st)) ++ x :: drop ti (delete di (items st)) in
    apiPost (SaveOrder (id <$> newItems)) (setItems newItems st).
Proof.
  intros Hd Hne E E' L Hlt. unfold handleDrop. rewrite Hd.
  apply Z.eqb_neq in Hne. rewrite Hne, E, E'.
  replace (Z.of_nat di =? -1)%Z with false by lia.
  replace (Z.of_nat ti =? -1)%Z with false by lia.
  simpl orb. cbv iota.
  rewrite (splice_remove_at _ _ _ L).
  assert (Hti : ti ≤ length (delete di (items st))).
  { rewrite length_delete; [lia | by eexists]. }
  by rewrite (splice_insert_at _ _ x Hti).
Qed.

(** The ways a drop ends: an early [return], or the move above. *)
Lemma handleDrop_cases (targetId : Z) (st : State) :
  handleDrop targetId st = st
  ∨ ∃ (di ti : nat) x,
      items st !! di = Some x
      ∧ handleDrop targetId st
        = let newItems :=
            take ti (delete di (items st))
            ++ x :: drop ti (delete di (items st)) in
          apiPost (SaveOrder (id <$> newItems)) (setItems newItems st).
Proof.
  destruct (dragItem st) as [d|] eqn:Hd;
    [| left; unfold handleDrop; by rewrite Hd].
  destruct (decide (d = targetId)) as [-> | Hne].
  { left. unfold handleDrop. by rewrite Hd, Z.eqb_refl. }
  destruct (findIndex_cases (λ item, (id item =? d)%Z) (items st))
    as [[E _] | (di & x & E & L & P)].
  { left. unfold handleDrop. rewrite Hd, E.
    by destruct (d =? targetId)%Z. }
  destruct (findIndex_cases (λ item, (id item =? targetId)%Z) (items st))
    as [[E' _] | (ti & y & E' & L' & P')].
  { left. unfold handleDrop. rewrite Hd, E, E'.
    destruct (d =? targetId)%Z; [done |]. by rewrite orb_true_r. }
  right. exists di, ti, x. split; [done |].
  apply lookup_lt_Some in L'.
  by rewrite (handleDrop_move _ _ _ _ _ _ Hd Hne E E' L L').
Qed.

(** A drop only ever rearranges [items]. *)
Lemma handleDrop_Permutation (targetId : Z) (st : State) :
  items (handleDrop targetId st) ≡ₚ items st.
Proof.
  destruct (handleDrop_cases targetId st) as [E | (di & ti & x & L & E)];
    rewrite E; [done |].
  cbn [items apiPost setItems].
  rewrite <- Permutation_middle, take_drop.
  symmetry. by apply delete_Permutation.
Qed.

(** A drop touches [items] and [posts] only. *)
Lemma handleDrop_frame (targetId : Z) (st : State) :
  selected (handleDrop targetId st) = selected st
  ∧ originalItems (handleDrop targetId st) = originalItems st
  ∧ page (handleDrop targetId st) = page st
  ∧ query (handleDrop targetId st) = query st
  ∧ loadingRef (handleDrop targetId st) = loadingRef st
  ∧ inflight (handleDrop targetId st) = inflight st
  ∧ console (handleDrop targetId st) = console st.
Proof.
  destruct (handleDrop_cases targetId st) as [E | (di & ti & x & L & E)];
    by rewrite E.
Qed.

(** ** Reordering *)


(** C5.  [reorder (a, b)] leaves [items] as it is when [a = b] or when one
    of the two ids is not in [items]. *)
Theorem reorder_identity (st : State) (a b : Z) :
  a = b ∨ a ∉ ids (items st) ∨ b ∉ ids (items st) →
  items (reorder a b st) = items st.
Proof.
  intros H. unfold reorder, handleDrop.
  cbn [dragItem handleDragStart setDragItem items].
  destruct (a =? b)%Z eqn:Hab; [done |].
  destruct H as [-> | [Ha | Hb]].
  - by rewrite Z.eqb_refl in Hab.
  - by rewrite (findIndex_id_absent _ _ Ha).
  - rewrite (findIndex_id_absent _ _ Hb).
    by rewrite orb_true_r.
Qed.

(** C10.  Whatever the two ids, the array after [reorder] is a permutation
    of the array before it, of the same length. *)
Theorem reorder_permutation (st : State) (draggedId targetId : Z) :
  items (reorder draggedId targetId st) ≡ₚ items st
  ∧ length (items (reorder draggedId targetId st)) = length (items st).
Proof.
  assert (P : items (reorder draggedId targetId st) ≡ₚ items st).
  { unfold reorder.
    by rewrite (handleDrop_Permutation targetId (handleDragStart draggedId st)). }
  split; [done | by apply Permutation_length].
Qed.



Lemma reorder_identity_witness :
  items (reorder 2 2 st1234) = items st1234
  ∧ items (reorder 7 2 st1234) = items st1234
  ∧ items (reorder 2 7 st1234) = items st1234.
Proof.
  split_and!.
  - apply (reorder_identity st1234 2 2). by left.
  - apply (reorder_identity st1234 7 2). right; left.
    intros H%list_elem_of_In. simpl in H. intuition lia.
  - apply (reorder_identity st1234 2 7). right; right.
    intros H%list_elem_of_In. simpl in H. intuition lia.
Defined.

(** ** Settling a fetch *)

(** C2.  When the request for page [req_page req] is fulfilled with [res],
    the items of [res] replace [items] if the page is 1, and are appended
    to the end of [items], behind the items already there, if the page is
    greater than 1. *)
Theorem fetchPage_replace_or_append
    (st : State) (i : nat) (req : Request) (res : Response) :
  inflight st !! i = Some req →
  ∃ st', step st (EvResolve i res) = Some st'
    ∧ (req_page req = 1%Z → items st' = res_items res)
    ∧ ((1 < req_page req)%Z →
       items st' = items st ++ res_items res
       ∧ take (length (items st)) (items st') = items st
       ∧ drop (length (items st)) (items st') = res_items res).
Proof.
  intros L. eexists. split.
  { simpl. rewrite L. reflexivity. }
  cbn [items onFinally onFulfilled setLoading setSelected setOriginalItems
       setItems setInflight].
  split.
  - intros ->. reflexivity.
  - intros Hp. replace (req_page req =? 1)%Z with false by lia.
    split_and!; [done | by rewrite take_app_length | by rewrite drop_app_length].
Qed.

(** C8.  When a request is fulfilled with [res], whatever its page,
    [originalItems] becomes the items of [res] and [selected] becomes the
    set of the ids that [res] reports as selected. *)
Theorem fetchPage_sets_original_and_selection
    (st : State) (i : nat) (req : Request) (res : Response) :
  inflight st !! i = Some req →
  ∃ st', step st (EvResolve i res) = Some st'
    ∧ originalItems st' = res_items res
    ∧ selected st' = list_to_set (res_selected res)
    ∧ (∀ x, x ∈ selected st' ↔ x ∈ res_selected res).
Proof.
  intros L. eexists. split.
  { simpl. rewrite L. reflexivity. }
  cbn [originalItems selected onFinally onFulfilled setLoading setSelected
       setOriginalItems setItems setInflight].
  split_and!; [done | done |].
  intros x. by rewrite elem_of_list_to_set.
Qed.

(** C7.  When a request is rejected with [error], the error is written to
    the console and [items], [originalItems] and [selected] stay as they
    are; so do [page] and [query], and no request is issued again. *)
Theorem fetch_failure_leaves_state
    (st : State) (i : nat) (req : Request) (error : string) :
  inflight st !! i = Some req →
  ∃ st', step st (EvReject i error) = Some st'
    ∧ console st' = console st ++ [("Ошибка загрузки данных:", error)]
    ∧ items st' = items st
    ∧ originalItems st' = originalItems st
    ∧ selected st' = selected st
    ∧ page st' = page st ∧ query st' = query st
    ∧ inflight st' = delete i (inflight st)
    ∧ posts st' = posts st.
Proof.
  intros L. eexists. split.
  { simpl. rewrite L. reflexivity. }
  by split_and!.
Qed.

Lemma fetchPage_replace_or_append_witness :
  (∃ st', step stPage1Pending (EvResolve 0 res12) = Some st'
     ∧ (req_page (mkRequest 1 "") = 1%Z → items st' = res_items res12)
     ∧ ((1 < req_page (mkRequest 1 ""))%Z →
        items st' = items stPage1Pending ++ res_items res12
        ∧ take (length (items stPage1Pending)) (items st')
          = items stPage1Pending
        ∧ drop (length (items stPage1Pending)) (items st')
          = res_items res12))
  ∧ (∃ st', step stPage2Pending (EvResolve 0 res34) = Some st'
     ∧ (req_page (mkRequest 2 "") = 1%Z → items st' = res_items res34)
     ∧ ((1 < req_page (mkRequest 2 ""))%Z →
        items st' = items stPage2Pending ++ res_items res34
        ∧ take (length (items stPage2Pending)) (items st')
          = items stPage2Pending
        ∧ drop (length (items stPage2Pending)) (items st')
          = res_items res34)).
Proof.
  split.
  - apply (fetchPage_replace_or_append stPage1Pending 0 (mkRequest 1 "") res12).
    reflexivity.
  - apply (fetchPage_replace_or_append stPage2Pending 0 (mkRequest 2 "") res34).
    reflexivity.
Defined.

Example fetch_page_2_appends :
  ∃ st', step stPage2Pending (EvResolve 0 res34) = Some st'
         ∧ items st' = [item1; item2; item3; item4]
         ∧ originalItems st' = [item3; item4].
Proof. eexists. split; [reflexivity |]. by split. Qed.

Lemma fetchPage_sets_original_and_selection_witness :
  ∃ st', step stPage2Pending (EvResolve 0 res34) = Some st'
    ∧ originalItems st' = res_items res34
    ∧ selected st' = list_to_set (res_selected res34)
    ∧ (∀ x, x ∈ selected st' ↔ x ∈ res_selected res34).
Proof.
  apply (fetchPage_sets_original_and_selection
           stPage2Pending 0 (mkRequest 2 "") res34).
  reflexivity.
Defined.

Lemma fetch_failure_leaves_state_witness :
  ∃ st', step stPage2Pending (EvReject 0 "Network Error") = Some st'
    ∧ console st'
      = console stPage2Pending
        ++ [("Ошибка загрузки данных:", "Network Error")]
    ∧ items st' = items stPage2Pending
    ∧ originalItems st' = originalItems stPage2Pending
    ∧ selected st' = selected stPage2Pending
    ∧ page st' = page stPage2Pending ∧ query st' = query stPage2Pending
    ∧ inflight st' = delete 0 (inflight stPage2Pending)
    ∧ posts st' = posts stPage2Pending.
Proof.
  apply (fetch_failure_leaves_state
           stPage2Pending 0 (mkRequest 2 "") "Network Error").
  reflexivity.
Defined.

(** ** Runs *)

Lemma run_app (evs1 evs2 : list Event) (st : State) :
  run (evs1 ++ evs2) st = st' ← run evs1 st; run evs2 st'.
Proof.
  revert st. induction evs1 as [|ev evs1 IH]; intros st; simpl; [done |].
  destruct (step st ev); simpl; [apply IH | done].
Qed.

(** A property that holds initially and that no event breaks holds at the
    end of every run. *)
Lemma run_invariant (P : State → Prop) :
  (∀ st ev st', P st → step st ev = Some st' → P st') →
  ∀ evs st st', P st → run evs st = Some st' → P st'.
Proof.
  intros Hstep. induction evs as [|ev evs IH]; intros st st' HP Hrun;
    simpl in Hrun.
  - by simplify_eq.
  - destruct (step st ev) as [st1|] eqn:E; simpl in Hrun; [| done].
    eapply IH; [| done]. by eapply Hstep.
Qed.

Example run_page2_pending : run evsPage2Pending init = Some stPage2Pending.
Proof. reflexivity. Qed.

(** ** Selection *)

Lemma toggleSelection_selected (j : Z) (st : State) :
  selected (toggleSelection j st)
  = if decide (j ∈ selected st) then selected st ∖ {[j]}
    else selected st ∪ {[j]}.
Proof. reflexivity. Qed.

Lemma toggles_cons_eq (i : Z) (l : list Z) :
  toggles i (i :: l) = S (toggles i l).
Proof. unfold toggles. by rewrite filter_cons_True. Qed.

Lemma toggles_cons_ne (i j : Z) (l : list Z) :
  j ≠ i → toggles i (j :: l) = toggles i l.
Proof. intros. unfold toggles. by rewrite filter_cons_False. Qed.

(** Membership after a sequence of toggles, from membership before it. *)
Lemma toggleAll_member (i : Z) (l : list Z) (st : State) :
  i ∈ selected (toggleAll l st)
  ↔ if decide (i ∈ selected st) then Nat.Even (toggles i l)
    else Nat.Odd (toggles i l).
Proof.
  revert st. induction l as [|j l IH]; intros st.
  - change (toggleAll [] st) with st. change (toggles i []) with 0%nat.
    destruct (decide (i ∈ selected st)) as [Hin | Hout].
    + split; [intros _; by exists 0%nat | done].
    + split; [done | intros [k Hk]; lia].
  - change (toggleAll (j :: l) st) with (toggleAll l (toggleSelection j st)).
    rewrite IH, toggleSelection_selected.
    destruct (decide (j = i)) as [-> | Hne].
    + rewrite toggles_cons_eq.
      destruct (decide (i ∈ selected st)) as [Hin | Hout].
      * rewrite decide_False by solve_member. by rewrite Nat.Even_succ.
      * rewrite decide_True by solve_member. by rewrite Nat.Odd_succ.
    + rewrite (toggles_cons_ne _ _ _ Hne).
      destruct (decide (j ∈ selected st));
        destruct (decide (i ∈ selected st)).
      * by rewrite decide_True by solve_member.
      * by rewrite decide_False by solve_member.
      * by rewrite decide_True by solve_member.
      * by rewrite decide_False by solve_member.
Qed.

(** C4.  Starting from a selection that does not contain [i], after any
    sequence of toggles [i] is selected exactly when it was toggled an odd
    number of times. *)
Theorem toggle_parity (i : Z) (l : list Z) (st : State) :
  i ∉ selected st →
  i ∈ selected (toggleAll l st) ↔ Nat.Odd (toggles i l).
Proof.
  intros Hout. rewrite toggleAll_member. by rewrite decide_False.
Qed.

Lemma toggle_parity_witness :
  1%Z ∈ selected (toggleAll [1%Z; 5%Z; 1%Z; 1%Z] stPage2Pending)
  ↔ Nat.Odd (toggles 1 [1%Z; 5%Z; 1%Z; 1%Z]).
Proof.
  apply (toggle_parity 1 [1%Z; 5%Z; 1%Z; 1%Z] stPage2Pending).
  change (selected stPage2Pending) with (list_to_set [2%Z] : gset Z).
  intros H%elem_of_list_to_set%list_elem_of_In. simpl in H. intuition lia.
Defined.

(** ** One fetch at a time *)

(** The handlers and the query effect leave the flag and the pending
    requests alone. *)
Lemma step_flight_frame (st st' : State) (ev : Event) :
  step st ev = Some st' →
  match ev with
  | EvFetchEffect | EvResolve _ _ | EvReject _ _ => True
  | _ => loadingRef st' = loadingRef st ∧ inflight st' = inflight st
  end.
Proof.
  destruct ev; simpl; intros H; simplify_option_eq; try done.
  - unfold handleScroll. destruct current; [| done].
    destruct (negb _); [| done]. by destruct (_ <=? _)%Z.
  - split; apply handleDrop_frame.
  - unfold handleSearchChange. by destruct (String.eqb _ _).
Qed.

Lemma fetchEffect_idle (st : State) :
  loadingRef st = false →
  fetchEffect st
  = setInflight (inflight st ++ [mkRequest (page st) (query st)])
      (setLoading true st).
Proof. intros H. unfold fetchEffect. by rewrite H. Qed.

Lemma fetchEffect_loading (st : State) :
  loadingRef st = true → fetchEffect st = st.
Proof. intros H. unfold fetchEffect. by rewrite H. Qed.

(** Settling the only pending request leads to [Idle]. *)
Lemma settle_idle (st st' : State) (ev : Event) :
  Idle st ∨ Fetching st →
  (∃ i res, ev = EvResolve i res) ∨ (∃ i error, ev = EvReject i error) →
  step st ev = Some st' → Idle st'.
Proof.
  intros Hst Hev Hstep.
  destruct Hst as [[_ E] | [_ [req E]]].
  - destruct Hev as [(i & ? & ->) | (i & ? & ->)]; simpl in Hstep;
      rewrite E in Hstep; by destruct i.
  - destruct Hev as [(i & ? & ->) | (i & ? & ->)]; simpl in Hstep;
      rewrite E in Hstep; destruct i as [|i]; simpl in Hstep;
      try (by destruct i); by simplify_eq.
Qed.

(** No event leads out of the two states of the fetch machine. *)
Lemma step_single_flight (st : State) (ev : Event) (st' : State) :
  Idle st ∨ Fetching st → step st ev = Some st' → Idle st' ∨ Fetching st'.
Proof.
  intros Hst Hstep.
  pose proof (step_flight_frame _ _ _ Hstep) as Hframe.
  destruct ev.
  2, 5-9: (destruct Hframe as [El Ei];
           unfold Idle, Fetching; rewrite El, Ei; exact Hst).
  - simpl in Hstep. simplify_eq.
    destruct Hst as [[El Ei] | [El Ei]].
    + right. rewrite (fetchEffect_idle _ El). split; [done |].
      eexists. cbn [inflight setInflight setLoading]. by rewrite Ei.
    + right. by rewrite (fetchEffect_loading _ El).
  - left. eapply settle_idle; [done | left; eauto | done].
  - left. eapply settle_idle; [done | right; eauto | done].
Qed.

(** C6.  In every state the component can reach, at most one request is
    pending, and one is pending exactly when the flag is up.  While the
    flag is up the fetch effect returns at once, a scroll to the bottom
    changes nothing, and the effect that follows a change of the query
    issues no request.  The flag goes up when a request is issued and
    comes down when the request settles, fulfilled or rejected. *)
Theorem single_flight (evs : list Event) (st : State) :
  run evs init = Some st →
  (Idle st ∨ Fetching st)
  ∧ length (inflight st) ≤ 1
  ∧ (loadingRef st = true ↔ length (inflight st) = 1)
  ∧ (loadingRef st = true →
     fetchEffect st = st
     ∧ (∀ current, handleScroll current st = st)
     ∧ (∀ value, fetchEffect (onQueryChange value st) = onQueryChange value st
                 ∧ inflight (onQueryChange value st) = inflight st))
  ∧ (loadingRef st = false →
     loadingRef (fetchEffect st) = true
     ∧ inflight (fetchEffect st) = [mkRequest (page st) (query st)])
  ∧ (∀ i res st', step st (EvResolve i res) = Some st' →
                  loadingRef st' = false ∧ inflight st' = [])
  ∧ (∀ i error st', step st (EvReject i error) = Some st' →
                    loadingRef st' = false ∧ inflight st' = []).
Proof.
  intros Hrun.
  assert (Hst : Idle st ∨ Fetching st).
  { eapply (run_invariant (λ s, Idle s ∨ Fetching s));
      [apply step_single_flight | | exact Hrun].
    by left. }
  split_and!.
  - done.
  - destruct Hst as [[_ ->] | [_ [req ->]]]; simpl; lia.
  - destruct Hst as [[-> ->] | [-> [req ->]]]; simpl; split; intros; lia || done.
  - intros El. split_and!.
    + by apply fetchEffect_loading.
    + intros [el|]; [| done]. unfold handleScroll. by rewrite El.
    + intros value.
      destruct (step_flight_frame st _ (EvSearchChange value) eq_refl)
        as [El' Ei'].
      unfold onQueryChange.
      split; [| done]. apply fetchEffect_loading. by rewrite El'.
  - intros El. rewrite (fetchEffect_idle _ El).
    destruct Hst as [[_ Ei] | [El' _]]; [| congruence].
    cbn [loadingRef inflight setInflight setLoading]. by rewrite Ei.
  - intros i res st' Hstep.
    eapply (settle_idle st st'); [done | left; eauto | done].
  - intros i error st' Hstep.
    eapply (settle_idle st st'); [done | right; eauto | done].
Qed.

Lemma single_flight_witness :
  (Idle stPage2Pending ∨ Fetching stPage2Pending)
  ∧ length (inflight stPage2Pending) ≤ 1
  ∧ (loadingRef stPage2Pending = true ↔ length (inflight stPage2Pending) = 1)
  ∧ (loadingRef stPage2Pending = true →
     fetchEffect stPage2Pending = stPage2Pending
     ∧ (∀ current, handleScroll current stPage2Pending = stPage2Pending)
     ∧ (∀ value, fetchEffect (onQueryChange value stPage2Pending)
                 = onQueryChange value stPage2Pending
                 ∧ inflight (onQueryChange value stPage2Pending)
                   = inflight stPage2Pending))
  ∧ (loadingRef stPage2Pending = false →
     loadingRef (fetchEffect stPage2Pending) = true
     ∧ inflight (fetchEffect stPage2Pending)
       = [mkRequest (page stPage2Pending) (query stPage2Pending)])
  ∧ (∀ i res st', step stPage2Pending (EvResolve i res) = Some st' →
                  loadingRef st' = false ∧ inflight st' = [])
  ∧ (∀ i error st', step stPage2Pending (EvReject i error) = Some st' →
                    loadingRef st' = false ∧ inflight st' = []).
Proof.
  apply (single_flight evsPage2Pending stPage2Pending).
  reflexivity.
Defined.

Example second_scroll_is_dropped :
  loadingRef stPage2Pending = true
  ∧ inflight stPage2Pending = [mkRequest 2 ""]
  ∧ run [EvScroll (Some atBottom); EvFetchEffect] stPage2Pending
    = Some stPage2Pending.
Proof. by split_and!. Qed.

(** ** Unique ids *)

Example run_overlap : run evsOverlap init = Some stOverlap.
Proof. reflexivity. Qed.

(** C9 (as stated) fails: the server answers page 1 with the items 1 and 2
    and page 2 with the items 2 and 3; the second answer is appended and
    [items] holds the id 2 twice. *)
Lemma duplicate_ids_reachable :
  run evsOverlap init = Some stOverlap
  ∧ ids (items stOverlap) = [1%Z; 2%Z; 2%Z; 3%Z]
  ∧ ¬ NoDup (ids (items stOverlap)).
Proof.
  split_and!; [reflexivity | reflexivity |].
  change (ids (items stOverlap)) with [1%Z; 2%Z; 2%Z; 3%Z].
  intros H. apply NoDup_cons_1_2, NoDup_cons_1_1 in H.
  apply H. constructor.
Qed.

(** The keys under which the items are rendered carry the index, so they
    are pairwise distinct whatever the ids are. *)
Lemma renderKeys_NoDup (l : list Item) : NoDup (renderKeys l).
Proof.
  apply (NoDup_fmap_1 snd).
  assert (E : ∀ (k : list Item) (n : nat),
             snd <$> imap (λ index item, (id item, n + index)) k
             = seq n (length k)).
  { induction k as [|a k IH]; intros n; simpl; [done |].
    rewrite Nat.add_0_r. f_equal.
    rewrite <- (IH (S n)). f_equal. apply imap_ext.
    intros i x _. simpl. f_equal. lia. }
  specialize (E l 0%nat). simpl in E.
  unfold renderKeys. rewrite E. apply NoDup_seq.
Qed.

Example renderKeys_overlap :
  renderKeys (items stOverlap)
  = [(1%Z, 0); (2%Z, 1); (2%Z, 2); (3%Z, 3)].
Proof. reflexivity. Qed.

(** * Further properties of the component *)

(** ** Array primitives, in full *)

Section ArrayMore.
Context {A : Type}.
Implicit Types (p : A → bool) (l : list A).

Lemma findIndex_from_first p l (i : Z) :
  (findIndex_from p l i = (-1)%Z ∧ ∀ x, x ∈ l → p x = false)
  ∨ (∃ (n : nat) x, findIndex_from p l i = (i + Z.of_nat n)%Z
                    ∧ l !! n = Some x ∧ p x = true
                    ∧ ∀ (m : nat) y, m < n → l !! m = Some y → p y = false).
Proof.
  revert i. induction l as [|a l IH]; intros i; simpl.
  - left. split; [done |]. intros x Hx. by apply elem_of_nil in Hx.
  - destruct (p a) eqn:Hpa.
    + right. exists 0%nat, a. split_and!; [lia | done | done |].
      intros m y Hm. lia.
    + destruct (IH (i + 1)%Z) as [[E F] | (n & x & E & L & P & F)].
      * left. split; [done |].
        intros x [-> | Hx]%elem_of_cons; [done | by apply F].
      * right. exists (S n), x. split_and!; [lia | done | done |].
        intros [|m] y Hm Hy; simpl in Hy; [by simplify_eq |].
        apply (F m y); [lia | done].
Qed.

(** X1.  [findIndex] answers [-1] exactly when no element satisfies [p];
    otherwise it answers the index of the first element that does. *)
Theorem findIndex_first p l :
  (findIndex p l = (-1)%Z ∧ ∀ x, x ∈ l → p x = false)
  ∨ (∃ (n : nat) x, findIndex p l = Z.of_nat n
                    ∧ n < length l ∧ l !! n = Some x ∧ p x = true
                    ∧ ∀ (m : nat) y, m < n → l !! m = Some y → p y = false).
Proof.
  unfold findIndex.
  destruct (findIndex_from_first p l 0) as [? | (n & x & E & L & P & F)];
    [by left |].
  right. exists n, x. split_and!; [lia | | done | done | done].
  by eapply lookup_lt_Some.
Qed.

(** X2.  [splice] starts at [start] clamped into the array (counted from
    the end when negative), removes [deleteCount] elements clamped to what
    is left, returns exactly those elements, in order, and leaves the
    elements before them, then the inserted ones, then the elements after
    them; nothing is lost or repeated. *)
Theorem splice_elements (start deleteCount : Z) (ins l : list A) :
  ∃ s d : nat,
    Z.of_nat s
    = (if (start <? 0)%Z then Z.max (Z.of_nat (length l) + start) 0
       else Z.min start (Z.of_nat (length l)))
    ∧ Z.of_nat d
      = Z.min (Z.max deleteCount 0) (Z.of_nat (length l) - Z.of_nat s)
    ∧ length (splice start deleteCount ins l).2 = d
    ∧ (∀ j, j < d →
         (splice start deleteCount ins l).2 !! j = l !! (s + j)%nat)
    ∧ length (splice start deleteCount ins l).1
      = (length l - d + length ins)%nat
    ∧ (∀ j, j < s → (splice start deleteCount ins l).1 !! j = l !! j)
    ∧ (∀ j, j < length ins →
         (splice start deleteCount ins l).1 !! (s + j)%nat = ins !! j)
    ∧ (∀ j, (splice start deleteCount ins l).1 !! (s + length ins + j)%nat
            = l !! (s + d + j)%nat)
    ∧ (splice start deleteCount ins l).1 ++ (splice start deleteCount ins l).2
      ≡ₚ l ++ ins.
Proof.
  unfold splice. cbn [fst snd].
  set (len := Z.of_nat (length l)).
  set (sz := if (start <? 0)%Z then Z.max (len + start) 0
             else Z.min start len).
  set (dz := Z.min (Z.max deleteCount 0) (len - sz)).
  assert (Hs : (0 ≤ sz ≤ len)%Z).
  { unfold sz. destruct (start <? 0)%Z eqn:E; lia. }
  assert (Hd : (0 ≤ dz ≤ len - sz)%Z) by (unfold dz; lia).
  replace (Z.to_nat (sz + dz)) with (Z.to_nat sz + Z.to_nat dz)%nat by lia.
  exists (Z.to_nat sz), (Z.to_nat dz).
  set (a := Z.to_nat sz). set (c := Z.to_nat dz).
  assert (Ha : a ≤ length l) by (unfold a, len in *; lia).
  assert (Hc : c ≤ length l - a) by (unfold a, c, len in *; lia).
  assert (Hta : length (take a l) = a) by (rewrite length_take; lia).
  split_and!.
  - unfold a. lia.
  - unfold c, a, dz. rewrite !Z2Nat.id by lia. done.
  - rewrite length_take, length_drop. lia.
  - intros j Hj. rewrite lookup_take_lt by done. apply lookup_drop.
  - rewrite !length_app, Hta, length_drop. lia.
  - intros j Hj. rewrite lookup_app_l by lia. by apply lookup_take_lt.
  - intros j Hj. rewrite lookup_app_r by lia.
    rewrite Hta. replace (a + j - a)%nat with j by lia.
    by apply lookup_app_l.
  - intros j. rewrite lookup_app_r by lia.
    rewrite Hta. replace (a + length ins + j - a)%nat
      with (length ins + j)%nat by lia.
    rewrite lookup_app_r by lia.
    replace (length ins + j - length ins)%nat with j by lia.
    apply lookup_drop.
  - transitivity (take a l ++ drop a l ++ ins);
      [| by rewrite app_assoc, take_drop].
    rewrite <- drop_drop, <- !app_assoc. apply Permutation_app_head.
    rewrite (Permutation_app_comm ins). apply Permutation_app_tail.
    rewrite Permutation_app_comm. by rewrite take_drop.
Qed.
End ArrayMore.

(** ** Drops, in full *)

Lemma findIndex_id_NoDup (l : list Item) (n : nat) (x : Item) :
  NoDup (ids l) → l !! n = Some x →
  findIndex (λ item, (id item =? id x)%Z) l = Z.of_nat n.
Proof.
  intros Hnd L.
  assert (Hin : id x ∈ ids l).
  { apply list_elem_of_fmap. exists x. split; [done |].
    by eapply list_elem_of_lookup_2. }
  destruct (findIndex_id_present _ _ Hin) as (n' & x' & E & L' & Hid).
  rewrite E. f_equal.
  eapply (NoDup_lookup (ids l) n' n (id x)); [done | |].
  - unfold ids. by rewrite list_lookup_fmap, L', <- Hid.
  - unfold ids. by rewrite list_lookup_fmap, L.
Qed.

Lemma handleDrop_dragItem (targetId : Z) (st : State) :
  dragItem (handleDrop targetId st) = dragItem st.
Proof.
  destruct (handleDrop_cases targetId st) as [E | (di & ti & x & L & E)];
    by rewrite E.
Qed.

(** X3.  A drop leaves the whole state as it is, and sends nothing, exactly
    when no drag has started, or the item is dropped on itself, or one of
    the two ids is not in [items]. *)
Theorem handleDrop_noop_iff (targetId : Z) (st : State) :
  handleDrop targetId st = st
  ↔ match dragItem st with
    | None => True
    | Some draggedId =>
      draggedId = targetId
      ∨ draggedId ∉ ids (items st) ∨ targetId ∉ ids (items st)
    end.
Proof.
  destruct (dragItem st) as [d|] eqn:Hd;
    [| unfold handleDrop; by rewrite Hd].
  split.
  - intros Hsame.
    destruct (decide (d = targetId)) as [| Hne]; [by left |].
    destruct (decide (d ∈ ids (items st))) as [Hin |]; [| by right; left].
    destruct (decide (targetId ∈ ids (items st))) as [Hin' |];
      [| by right; right].
    exfalso.
    destruct (findIndex_id_present _ _ Hin) as (di & x & E & L & _).
    destruct (findIndex_id_present _ _ Hin') as (ti & y & E' & L' & _).
    apply lookup_lt_Some in L'.
    rewrite (handleDrop_move _ _ _ _ _ _ Hd Hne E E' L L') in Hsame.
    apply (f_equal (λ s, length (posts s))) in Hsame.
    cbn [posts apiPost setItems] in Hsame.
    rewrite length_app in Hsame. simpl in Hsame. lia.
  - intros H. unfold handleDrop. rewrite Hd.
    destruct (d =? targetId)%Z eqn:Hdt; [done |].
    destruct H as [-> | [Ha | Hb]].
    + by rewrite Z.eqb_refl in Hdt.
    + by rewrite (findIndex_id_absent _ _ Ha).
    + rewrite (findIndex_id_absent _ _ Hb). by rewrite orb_true_r.
Qed.

(** X4.  A drop that moves an item sends exactly one [POST /save-order], and
    its body lists the ids of the new [items] in their new order, which are
    the old ids rearranged; nothing but [items] and the sent requests
    changes. *)
Theorem handleDrop_posts_new_order (targetId draggedId : Z) (st : State) :
  dragItem st = Some draggedId → draggedId ≠ targetId →
  draggedId ∈ ids (items st) → targetId ∈ ids (items st) →
  posts (handleDrop targetId st)
  = posts st ++ [SaveOrder (ids (items (handleDrop targetId st)))]
  ∧ ids (items (handleDrop targetId st)) ≡ₚ ids (items st)
  ∧ handleDrop targetId st
    = apiPost (SaveOrder (ids (items (handleDrop targetId st))))
        (setItems (items (handleDrop targetId st)) st).
Proof.
  intros Hd Hne Hin Hin'.
  destruct (findIndex_id_present _ _ Hin) as (di & x & E & L & _).
  destruct (findIndex_id_present _ _ Hin') as (ti & y & E' & L' & _).
  apply lookup_lt_Some in L'.
  split_and!.
  - by rewrite (handleDrop_move _ _ _ _ _ _ Hd Hne E E' L L').
  - unfold ids. by rewrite (handleDrop_Permutation targetId st).
  - by rewrite (handleDrop_move _ _ _ _ _ _ Hd Hne E E' L L').
Qed.

Lemma handleDrop_posts_new_order_witness :
  posts (handleDrop 3 (handleDragStart 1 st1234))
  = posts (handleDragStart 1 st1234)
    ++ [SaveOrder (ids (items (handleDrop 3 (handleDragStart 1 st1234))))]
  ∧ ids (items (handleDrop 3 (handleDragStart 1 st1234)))
    ≡ₚ ids (items (handleDragStart 1 st1234))
  ∧ handleDrop 3 (handleDragStart 1 st1234)
    = apiPost
        (SaveOrder (ids (items (handleDrop 3 (handleDragStart 1 st1234)))))
        (setItems (items (handleDrop 3 (handleDragStart 1 st1234)))
           (handleDragStart 1 st1234)).
Proof.
  apply (handleDrop_posts_new_order 3 1 (handleDragStart 1 st1234)).
  - reflexivity.
  - lia.
  - apply list_elem_of_In. simpl. tauto.
  - apply list_elem_of_In. simpl. tauto.
Defined.

Example drop_posts_2_3_1_4 :
  posts (reorder 1 3 st1234) = [SaveOrder [2%Z; 3%Z; 1%Z; 4%Z]].
Proof. reflexivity. Qed.

(** X5.  When the ids of [items] are pairwise distinct, dragging the row at
    index [i] and dropping it on the row at index [j] puts the dragged item
    at index [j] and leaves the other items in their order. *)
Theorem drag_row_onto_row (st : State) (i j : nat) (a b : Item) :
  NoDup (ids (items st)) →
  items st !! i = Some a → items st !! j = Some b → i ≠ j →
  items (rowDrop j (rowDragStart i st)) !! j = Some a
  ∧ delete j (items (rowDrop j (rowDragStart i st))) = delete i (items st)
  ∧ length (items (rowDrop j (rowDragStart i st))) = length (items st).
Proof.
  intros Hnd La Lb Hij.
  assert (Hne : id a ≠ id b).
  { intros Heq. apply Hij.
    eapply (NoDup_lookup (ids (items st)) i j (id a)); [done | |];
      unfold ids; rewrite list_lookup_fmap.
    - by rewrite La.
    - by rewrite Lb, Heq. }
  pose proof (findIndex_id_NoDup _ _ _ Hnd La) as E.
  pose proof (findIndex_id_NoDup _ _ _ Hnd Lb) as E'.
  pose proof (lookup_lt_Some _ _ _ La) as Hi.
  pose proof (lookup_lt_Some _ _ _ Lb) as Hj.
  unfold rowDragStart. rewrite La.
  unfold rowDrop. cbn [items handleDragStart setDragItem]. rewrite Lb.
  rewrite (handleDrop_move (id b) (id a) (handleDragStart (id a) st)
             i j a eq_refl Hne E E' La Hj).
  cbn [items apiPost setItems handleDragStart setDragItem].
  set (rest := delete i (items st)).
  assert (Hlen : length rest = (length (items st) - 1)%nat).
  { unfold rest. rewrite length_delete; [done | by eexists]. }
  assert (Htk : length (take j rest) = j) by (rewrite length_take; lia).
  split_and!.
  - by apply list_lookup_middle.
  - rewrite <- Htk at 1. rewrite delete_middle. by rewrite take_drop.
  - rewrite length_app. simpl. rewrite Htk, length_drop. lia.
Qed.

Lemma drag_row_onto_row_witness :
  items (rowDrop 2 (rowDragStart 0 st1234)) !! 2 = Some item1
  ∧ delete 2 (items (rowDrop 2 (rowDragStart 0 st1234)))
    = delete 0 (items st1234)
  ∧ length (items (rowDrop 2 (rowDragStart 0 st1234)))
    = length (items st1234).
Proof.
  apply (drag_row_onto_row st1234 0 2 item1 item3).
  - change (ids (items st1234)) with [1%Z; 2%Z; 3%Z; 4%Z]. solve_NoDup.
  - reflexivity.
  - reflexivity.
  - lia.
Defined.

(** With a repeated id the row that moves need not be the row that was
    dragged: the third row of [stTwins] carries the id of the first, and
    dragging it onto the fourth moves the first. *)
Example drag_twin_moves_first :
  items (rowDrop 3 (rowDragStart 2 stTwins)) = [item2; item1'; item4; item1].
Proof. reflexivity. Qed.

(** X6.  A reorder does not reach [originalItems]: clearing the search box
    after it shows the last fetched page again, in the order it came. *)
Theorem reorder_discarded_by_clear (draggedId targetId : Z) (st : State) :
  originalItems (reorder draggedId targetId st) = originalItems st
  ∧ items (onQueryChange "" (reorder draggedId targetId st))
    = originalItems st.
Proof.
  assert (E : originalItems (reorder draggedId targetId st)
              = originalItems st).
  { unfold reorder.
    destruct (handleDrop_frame targetId (handleDragStart draggedId st))
      as (_ & -> & _).
    done. }
  split; [done |]. exact E.
Qed.

(** ** The drag ref *)

Lemma step_dragItem (st st' : State) (ev : Event) :
  step st ev = Some st' →
  dragItem st' = lastDragStart [ev] (dragItem st).
Proof.
  destruct ev; simpl; intros H; simplify_option_eq; try done.
  - unfold fetchEffect. by destruct (loadingRef st).
  - unfold handleScroll. destruct current; [| done].
    destruct (negb _); [| done]. by destruct (_ <=? _)%Z.
  - apply handleDrop_dragItem.
  - unfold handleSearchChange. by destruct (String.eqb _ _).
Qed.

Lemma run_dragItem (evs : list Event) (st st' : State) :
  run evs st = Some st' →
  dragItem st' = lastDragStart evs (dragItem st).
Proof.
  revert st. induction evs as [|ev evs IH]; intros st Hrun; simpl in Hrun.
  - by simplify_eq.
  - destruct (step st ev) as [st1|] eqn:E; simpl in Hrun; [| done].
    rewrite (IH _ Hrun), (step_dragItem _ _ _ E).
    by destruct ev.
Qed.

(** X7.  Nothing ever resets [dragItem.current]: at any time it holds the id of
    the last drag that started, however many drops, fetches or other
    events came after it, and [null] only while no drag has started. *)
Theorem dragItem_is_last_drag_start (evs : list Event) (st : State) :
  run evs init = Some st → dragItem st = lastDragStart evs None.
Proof. intros Hrun. apply (run_dragItem _ _ _ Hrun). Qed.

Example run_dropped_twice : run evsDroppedTwice init = Some stDroppedTwice.
Proof. vm_compute. reflexivity. Qed.

Lemma dragItem_is_last_drag_start_witness :
  dragItem stDroppedTwice = lastDragStart evsDroppedTwice None.
Proof.
  apply (dragItem_is_last_drag_start evsDroppedTwice stDroppedTwice).
  vm_compute. reflexivity.
Defined.

(** The second drop finds the id of the finished drag and moves item 1
    back. *)
Example second_drop_moves_again :
  items stDroppedTwice = [item1; item2]
  ∧ posts stDroppedTwice
    = [SaveOrder [2%Z; 1%Z]; SaveOrder [1%Z; 2%Z]].
Proof. vm_compute. by split. Qed.

(** ** Selection, in full *)

Lemma elem_of_toggleSelection (x j : Z) (st : State) :
  x ∈ selected (toggleSelection j st)
  ↔ if decide (x = j) then x ∉ selected st else x ∈ selected st.
Proof.
  rewrite toggleSelection_selected.
  destruct (decide (x = j)) as [-> | Hne];
    destruct (decide (j ∈ selected st)); solve_member.
Qed.

Lemma toggle_toggle_selected (i : Z) (st : State) :
  selected (handleToggleSelect i (handleToggleSelect i st)) = selected st.
Proof.
  apply set_eq. intros x.
  change handleToggleSelect with toggleSelection.
  rewrite elem_of_toggleSelection.
  destruct (decide (x = i)) as [-> | Hne];
    rewrite elem_of_toggleSelection.
  - rewrite decide_True by done.
    destruct (decide (i ∈ selected st)); tauto.
  - by rewrite decide_False.
Qed.

(** X8.  [handleToggleSelect] sends nothing itself: it hands an updater to
    [setSelected].  Every run of that updater flips the membership of
    the id in the set it is given and sends one [POST /save-selection]
    whose body lists, without repetition, the whole set that this run
    returns. *)
Theorem toggleUpdater_posts_returned_set (i : Z) (prev : gset Z) :
  (∃ sel,
     (toggleUpdater i prev).2 = SaveSelection sel
     ∧ NoDup sel
     ∧ ∀ x, x ∈ sel ↔ x ∈ (toggleUpdater i prev).1)
  ∧ (∀ x, x ∈ (toggleUpdater i prev).1
          ↔ if decide (x = i) then x ∉ prev else x ∈ prev)
  ∧ (∀ c, posts (Queued.shown (Queued.handleToggleSelect i c))
          = posts (Queued.shown c))
  ∧ (∀ st, posts (Queued.applyUpdate (Queued.UToggleSelected i) st)
           = posts st ++ [(toggleUpdater i (selected st)).2]).
Proof.
  split_and!.
  - eexists. split_and!; [reflexivity | apply NoDup_elements |].
    intros x. apply elem_of_elements.
  - intros x. unfold toggleUpdater. cbn [fst].
    destruct (decide (x = i)) as [-> | Hne];
      destruct (decide (i ∈ prev)); solve_member.
  - reflexivity.
  - reflexivity.
Qed.

Lemma applyAll_app (q1 q2 : list Queued.Update) (st : State) :
  Queued.applyAll (q1 ++ q2) st = Queued.applyAll q2 (Queued.applyAll q1 st).
Proof. unfold Queued.applyAll. apply foldl_app. Qed.

(** X9.  Two toggles of the same id cancel: the render that follows them
    shows the selection, and every other state cell, that a render
    without them would have shown. *)
Theorem toggle_twice_restores_cells (i : Z) (c : Queued.Comp) :
  selected (Queued.shown (Queued.render
     (Queued.handleToggleSelect i (Queued.handleToggleSelect i c))))
  = selected (Queued.shown (Queued.render c))
  ∧ items (Queued.shown (Queued.render
       (Queued.handleToggleSelect i (Queued.handleToggleSelect i c))))
    = items (Queued.shown (Queued.render c))
  ∧ originalItems (Queued.shown (Queued.render
       (Queued.handleToggleSelect i (Queued.handleToggleSelect i c))))
    = originalItems (Queued.shown (Queued.render c))
  ∧ page (Queued.shown (Queued.render
       (Queued.handleToggleSelect i (Queued.handleToggleSelect i c))))
    = page (Queued.shown (Queued.render c))
  ∧ query (Queued.shown (Queued.render
       (Queued.handleToggleSelect i (Queued.handleToggleSelect i c))))
    = query (Queued.shown (Queued.render c)).
Proof.
  cbn [Queued.shown Queued.render Queued.pending Queued.handleToggleSelect
       Queued.enqueue].
  rewrite !applyAll_app.
  set (st := Queued.applyAll (Queued.pending c) (Queued.shown c)).
  change (Queued.applyAll [Queued.UToggleSelected i]
            (Queued.applyAll [Queued.UToggleSelected i] st))
    with (handleToggleSelect i (handleToggleSelect i st)).
  split_and!; [apply toggle_toggle_selected | done | done | done | done].
Qed.

Lemma toggles_Permutation (i : Z) (l1 l2 : list Z) :
  l1 ≡ₚ l2 → toggles i l1 = toggles i l2.
Proof. intros H. unfold toggles. by rewrite H. Qed.

(** X10.  The selection after a sequence of toggles does not depend on their
    order. *)
Theorem toggle_order_irrelevant (l1 l2 : list Z) (st : State) :
  l1 ≡ₚ l2 → selected (toggleAll l1 st) = selected (toggleAll l2 st).
Proof.
  intros H. apply set_eq. intros x.
  by rewrite !toggleAll_member, (toggles_Permutation x l1 l2 H).
Qed.

Lemma toggle_order_irrelevant_witness :
  selected (toggleAll [1%Z; 2%Z; 1%Z; 3%Z] stPage2Pending)
  = selected (toggleAll [3%Z; 1%Z; 1%Z; 2%Z] stPage2Pending).
Proof.
  apply (toggle_order_irrelevant
           [1%Z; 2%Z; 1%Z; 3%Z] [3%Z; 1%Z; 1%Z; 2%Z] stPage2Pending).
  change [1%Z; 2%Z; 1%Z; 3%Z] with ([1%Z; 2%Z; 1%Z] ++ [3%Z]).
  rewrite Permutation_app_comm. simpl. apply perm_skip.
  apply perm_trans with [1%Z; 1%Z; 2%Z]; [| done].
  apply perm_skip, perm_swap.
Defined.

(** ** The rendered rows *)

Lemma renderList_lookup (st : State) (m : nat) :
  renderList st !! m = (λ item, ListItem item (selected st)) <$> items st !! m.
Proof. unfold renderList. apply list_lookup_fmap. Qed.

(** One row is rendered per item, in order, and a row's checkbox is checked
    exactly when the id of its item is in [selected]. *)
Theorem renderList_rows (st : State) :
  length (renderList st) = length (items st)
  ∧ ∀ m item, items st !! m = Some item →
      ∃ v, renderList st !! m = Some v
        ∧ view_dataId v = id item ∧ view_text v = name item
        ∧ (view_checked v = true ↔ id item ∈ selected st).
Proof.
  split.
  - unfold renderList. apply length_fmap.
  - intros m item L. eexists. rewrite renderList_lookup, L. simpl.
    split_and!; try reflexivity.
    apply bool_decide_eq_true.
Qed.

(** X11.  A click on the checkbox of the row at index [n] flips the checkbox of
    every row that carries the id of that row, the clicked one among them,
    and leaves the other checkboxes, and every id and text, as they are. *)
Theorem checkbox_click_flips (st : State) (n m : nat) (item : Item)
    (v : ListItemView) :
  items st !! n = Some item → renderList st !! m = Some v →
  ∃ v', renderList (rowChange n st) !! m = Some v'
    ∧ view_dataId v' = view_dataId v ∧ view_text v' = view_text v
    ∧ view_checked v'
      = (if decide (view_dataId v = id item) then negb (view_checked v)
         else view_checked v)
    ∧ length (renderList (rowChange n st)) = length (renderList st).
Proof.
  intros Ln Lm. unfold rowChange. rewrite Ln.
  rewrite renderList_lookup in Lm.
  destruct (items st !! m) as [it|] eqn:Lit; [| done].
  simpl in Lm. simplify_eq.
  eexists. rewrite renderList_lookup.
  cbn [items handleToggleSelect setSelected apiPost]. rewrite Lit. simpl.
  split_and!; [reflexivity | reflexivity | reflexivity | |].
  - change (bool_decide (id it ∈ selected (toggleSelection (id item) st))
            = if decide (id it = id item)
              then negb (bool_decide (id it ∈ selected st))
              else bool_decide (id it ∈ selected st)).
    destruct (decide (id it = id item)) as [E | Hne].
    + rewrite <- bool_decide_not. apply bool_decide_ext.
      rewrite elem_of_toggleSelection. by rewrite decide_True.
    + apply bool_decide_ext.
      rewrite elem_of_toggleSelection. by rewrite decide_False.
  - unfold renderList. by rewrite !length_fmap.
Qed.

Lemma checkbox_click_flips_witness :
  ∃ v', renderList (rowChange 0 stFailedOnce) !! 0 = Some v'
    ∧ view_dataId v' = view_dataId (mkView 1 false "A")
    ∧ view_text v' = view_text (mkView 1 false "A")
    ∧ view_checked v'
      = (if decide (view_dataId (mkView 1 false "A") = id item1)
         then negb (view_checked (mkView 1 false "A"))
         else view_checked (mkView 1 false "A"))
    ∧ length (renderList (rowChange 0 stFailedOnce))
      = length (renderList stFailedOnce).
Proof.
  apply (checkbox_click_flips stFailedOnce 0 0 item1 (mkView 1 false "A")).
  - reflexivity.
  - vm_compute. reflexivity.
Defined.

Example render_after_page_1 :
  renderList stFailedOnce = [mkView 1 false "A"; mkView 2 true "B"].
Proof. vm_compute. reflexivity. Qed.

(** ** Fetching, in full *)

Lemma run_single_flight (evs : list Event) (st : State) :
  run evs init = Some st → Idle st ∨ Fetching st.
Proof.
  intros Hrun.
  eapply (run_invariant (λ s, Idle s ∨ Fetching s));
    [apply step_single_flight | | exact Hrun].
  by left.
Qed.

Lemma step_page_bound (st : State) (ev : Event) (st' : State) :
  (1 ≤ page st)%Z ∧ Forall (λ r, (1 ≤ req_page r)%Z) (inflight st) →
  step st ev = Some st' →
  (1 ≤ page st')%Z ∧ Forall (λ r, (1 ≤ req_page r)%Z) (inflight st').
Proof.
  intros [Hp Hr] Hstep. destruct ev; simpl in Hstep.
  - simplify_eq. unfold fetchEffect. destruct (loadingRef st); [done |].
    cbn [page inflight setInflight setLoading]. split; [done |].
    apply Forall_app. split; [done |]. by repeat constructor.
  - simplify_eq. cbn [page inflight queryEffect setPage]. split; [lia | done].
  - destruct (inflight st !! i); simpl in Hstep; [| done]. simplify_eq.
    cbn [page inflight onFinally onFulfilled setLoading setSelected
         setOriginalItems setItems setInflight].
    split; [done | by apply Forall_delete].
  - destruct (inflight st !! i); simpl in Hstep; [| done]. simplify_eq.
    cbn [page inflight onFinally onRejected consoleError setLoading
         setInflight].
    split; [done | by apply Forall_delete].
  - simplify_eq. unfold handleScroll. destruct current; [| done].
    destruct (negb _); [| done]. destruct (_ <=? _)%Z; [| done].
    cbn [page inflight setPage]. split; [lia | done].
  - by simplify_eq.
  - by simplify_eq.
  - simplify_eq.
    destruct (handleDrop_frame targetId st) as (_ & _ & -> & _ & _ & -> & _).
    done.
  - simplify_eq. unfold handleSearchChange.
    destruct (String.eqb _ _); cbn [page inflight setItems setPage setQuery];
      (split; [lia | done]).
Qed.

(** X12.  Whatever happens, [page] is at least 1, and so is the page of every
    request that was issued. *)
Theorem page_at_least_one (evs : list Event) (st : State) :
  run evs init = Some st →
  (1 ≤ page st)%Z ∧ Forall (λ r, (1 ≤ req_page r)%Z) (inflight st).
Proof.
  intros Hrun.
  eapply (run_invariant
            (λ s, (1 ≤ page s)%Z
                  ∧ Forall (λ r, (1 ≤ req_page r)%Z) (inflight s)));
    [apply step_page_bound | | exact Hrun].
  split; [done | constructor].
Qed.

Lemma page_at_least_one_witness :
  (1 ≤ page stPage2Pending)%Z
  ∧ Forall (λ r, (1 ≤ req_page r)%Z) (inflight stPage2Pending).
Proof.
  apply (page_at_least_one evsPage2Pending stPage2Pending).
  reflexivity.
Defined.

(** X13.  A change of the query while a request is pending does not cancel it
    and issues none for the new query: when the old request is fulfilled
    its response is shown under the new query, replacing or extending
    [items] according to the page of the old request. *)
Theorem stale_response_applied
    (evs : list Event) (st : State) (value : string) (res : Response) :
  run evs init = Some st → loadingRef st = true →
  ∃ req st',
    inflight st = [req]
    ∧ run [EvSearchChange value; EvFetchEffect; EvResolve 0 res] st = Some st'
    ∧ query st' = value ∧ page st' = 1%Z
    ∧ items st'
      = (if (req_page req =? 1)%Z then res_items res
         else items (onQueryChange value st) ++ res_items res)
    ∧ originalItems st' = res_items res
    ∧ selected st' = list_to_set (res_selected res)
    ∧ Idle st'.
Proof.
  intros Hrun Hl.
  destruct (run_single_flight _ _ Hrun) as [[Hl' _] | [_ [req Hreq]]];
    [congruence |].
  exists req. eexists. split; [done |].
  split.
  { cbn [run step]. unfold mbind, option_bind.
    assert (El : loadingRef (handleSearchChange value st) = true).
    { unfold handleSearchChange. by destruct (String.eqb _ _). }
    assert (Ei : inflight (handleSearchChange value st) = [req]).
    { unfold handleSearchChange. by destruct (String.eqb _ _). }
    rewrite (fetchEffect_loading _ El), Ei. reflexivity. }
  unfold onQueryChange, handleSearchChange.
  destruct (String.eqb value ""); by split_and!.
Qed.

Lemma stale_response_applied_witness :
  ∃ req st',
    inflight stPage2Pending = [req]
    ∧ run [EvSearchChange "a"; EvFetchEffect; EvResolve 0 res34]
        stPage2Pending = Some st'
    ∧ query st' = "a" ∧ page st' = 1%Z
    ∧ items st'
      = (if (req_page req =? 1)%Z then res_items res34
         else items (onQueryChange "a" stPage2Pending) ++ res_items res34)
    ∧ originalItems st' = res_items res34
    ∧ selected st' = list_to_set (res_selected res34)
    ∧ Idle st'.
Proof.
  apply (stale_response_applied evsPage2Pending stPage2Pending "a" res34).
  - reflexivity.
  - reflexivity.
Defined.

(** Page 2 of the unfiltered list ends up under the query "a". *)
Example stale_page_2_under_new_query :
  ∃ st', run [EvSearchChange "a"; EvFetchEffect; EvResolve 0 res34]
           stPage2Pending = Some st'
         ∧ query st' = "a"
         ∧ items st' = [item1; item2; item3; item4].
Proof. eexists. split; [vm_compute; reflexivity |]. by split. Qed.

(** X14.  A fulfilled fetch leaves [page] and [query] as they are and brings the
    component back to [Idle], so the next run of the fetch effect issues
    the same request again; for a page other than 1 the same answer is
    then appended a second time. *)
Theorem fulfilled_fetch_repeats (st : State) (res : Response) :
  Idle st →
  ∃ st',
    run [EvFetchEffect; EvResolve 0 res] st = Some st'
    ∧ Idle st' ∧ page st' = page st ∧ query st' = query st
    ∧ inflight (fetchEffect st') = [mkRequest (page st) (query st)]
    ∧ (page st ≠ 1%Z →
       ∃ st'',
         run [EvFetchEffect; EvResolve 0 res] st' = Some st''
         ∧ items st'' = items st ++ res_items res ++ res_items res).
Proof.
  intros [Hl Hi]. destruct st as [its sel orig pg q ld dr infl ps con].
  simpl in Hl, Hi. subst ld infl.
  eexists. split; [reflexivity |].
  split_and!; try reflexivity; [by split |].
  intros Hp. cbn [page] in Hp.
  eexists. split; [reflexivity |].
  cbn. apply Z.eqb_neq in Hp. rewrite Hp.
  by rewrite <- app_assoc.
Qed.

Lemma fulfilled_fetch_repeats_witness :
  ∃ st',
    run [EvFetchEffect; EvResolve 0 res34]
      (handleScroll (Some atBottom) stFailedOnce) = Some st'
    ∧ Idle st'
    ∧ page st' = page (handleScroll (Some atBottom) stFailedOnce)
    ∧ query st' = query (handleScroll (Some atBottom) stFailedOnce)
    ∧ inflight (fetchEffect st')
      = [mkRequest (page (handleScroll (Some atBottom) stFailedOnce))
           (query (handleScroll (Some atBottom) stFailedOnce))]
    ∧ (page (handleScroll (Some atBottom) stFailedOnce) ≠ 1%Z →
       ∃ st'',
         run [EvFetchEffect; EvResolve 0 res34] st' = Some st''
         ∧ items st''
           = items (handleScroll (Some atBottom) stFailedOnce)
             ++ res_items res34 ++ res_items res34).
Proof.
  apply (fulfilled_fetch_repeats
           (handleScroll (Some atBottom) stFailedOnce) res34).
  vm_compute. by split.
Defined.

Example page_2_appended_twice :
  ∃ st', run [EvFetchEffect; EvResolve 0 res34;
              EvFetchEffect; EvResolve 0 res34]
           (handleScroll (Some atBottom) stFailedOnce) = Some st'
         ∧ items st' = [item1; item2; item3; item4; item3; item4].
Proof. eexists. split; [vm_compute; reflexivity |]. reflexivity. Qed.

(** ** The console *)

Lemma step_console (st st' : State) (ev : Event) :
  step st ev = Some st' →
  console st'
  = console st
    ++ ((λ error, ("Ошибка загрузки данных:", error)) <$> rejections [ev]).
Proof.
  destruct ev; simpl; intros H; simplify_option_eq;
    rewrite ?app_nil_r; try done.
  - unfold fetchEffect. by destruct (loadingRef st).
  - unfold handleScroll. destruct current; [| done].
    destruct (negb _); [| done]. by destruct (_ <=? _)%Z.
  - apply handleDrop_frame.
  - unfold handleSearchChange. by destruct (String.eqb _ _).
Qed.

Lemma run_console (evs : list Event) (st st' : State) :
  run evs st = Some st' →
  console st'
  = console st
    ++ ((λ error, ("Ошибка загрузки данных:", error)) <$> rejections evs).
Proof.
  revert st. induction evs as [|ev evs IH]; intros st Hrun; simpl in Hrun.
  - simplify_eq. simpl. by rewrite app_nil_r.
  - destruct (step st ev) as [st1|] eqn:E; simpl in Hrun; [| done].
    rewrite (IH _ Hrun), (step_console _ _ _ E), <- app_assoc.
    f_equal. rewrite <- fmap_app. f_equal. by destruct ev.
Qed.

(** X15.  The console holds one line per rejected fetch, in the order of the
    failures, each with the error of the rejection; nothing else is ever
    written to it. *)
Theorem console_logs_failures (evs : list Event) (st : State) :
  run evs init = Some st →
  console st
  = (λ error, ("Ошибка загрузки данных:", error)) <$> rejections evs.
Proof. intros Hrun. apply (run_console _ _ _ Hrun). Qed.

Example run_failed_once : run evsFailedOnce init = Some stFailedOnce.
Proof. vm_compute. reflexivity. Qed.

Lemma console_logs_failures_witness :
  console stFailedOnce
  = (λ error, ("Ошибка загрузки данных:", error))
    <$> rejections evsFailedOnce.
Proof.
  apply (console_logs_failures evsFailedOnce stFailedOnce).
  vm_compute. reflexivity.
Defined.

(** ** The page reset effect *)

(** X16.  The effect that sets [page] to 1 when [query] changes has nothing left
    to do after [handleSearchChange], the only place where [query] is set,
    because the handler has set [page] to 1 itself; and it undoes any
    number of scrolls. *)
Theorem queryEffect_redundant (value : string) (st : State) :
  queryEffect (handleSearchChange value st) = handleSearchChange value st
  ∧ queryEffect (queryEffect st) = queryEffect st
  ∧ ∀ current, queryEffect (handleScroll current st) = queryEffect st.
Proof.
  split_and!.
  - unfold handleSearchChange. by destruct (String.eqb _ _).
  - reflexivity.
  - intros [el|]; [| done]. unfold handleScroll.
    destruct (negb _); [| done]. by destruct (_ <=? _)%Z.
Qed.

(** * The component between renders *)

(** ** Processing the waiting calls *)

Lemma applyUpdate_frame (u : Queued.Update) (st : State) :
  loadingRef (Queued.applyUpdate u st) = loadingRef st
  ∧ dragItem (Queued.applyUpdate u st) = dragItem st
  ∧ inflight (Queued.applyUpdate u st) = inflight st
  ∧ console (Queued.applyUpdate u st) = console st.
Proof. by destruct u. Qed.

Lemma applyAll_frame (q : list Queued.Update) (st : State) :
  loadingRef (Queued.applyAll q st) = loadingRef st
  ∧ dragItem (Queued.applyAll q st) = dragItem st
  ∧ inflight (Queued.applyAll q st) = inflight st
  ∧ console (Queued.applyAll q st) = console st.
Proof.
  revert st. induction q as [|u q IH]; intros st; [done |].
  change (Queued.applyAll (u :: q) st)
    with (Queued.applyAll q (Queued.applyUpdate u st)).
  destruct (IH (Queued.applyUpdate u st)) as (-> & -> & -> & ->).
  apply applyUpdate_frame.
Qed.

Lemma queuedOriginal_app (q1 q2 : list Queued.Update) (acc : list Item) :
  Queued.queuedOriginal (q1 ++ q2) acc
  = Queued.queuedOriginal q2 (Queued.queuedOriginal q1 acc).
Proof.
  revert acc. induction q1 as [|u q1 IH]; intros acc; simpl; [done |].
  destruct u; apply IH.
Qed.

Lemma applyAll_originalItems (q : list Queued.Update) (st : State) :
  originalItems (Queued.applyAll q st)
  = Queued.queuedOriginal q (originalItems st).
Proof.
  revert st. induction q as [|u q IH]; intros st; [done |].
  change (Queued.applyAll (u :: q) st)
    with (Queued.applyAll q (Queued.applyUpdate u st)).
  rewrite IH. by destruct u.
Qed.

Lemma queuedOriginal_shown (q : list Queued.Update) (acc : list Item) :
  Forall (λ u, Queued.writesOriginal u = false) q →
  Queued.queuedOriginal q acc = acc.
Proof.
  revert acc. induction q as [|u q IH]; intros acc Hq; [done |].
  apply Forall_cons in Hq as [Hu Hq].
  destruct u; simpl in *; try discriminate; by apply IH.
Qed.

(** ** Drops between renders *)

(** A drop reads the [items] of the last render: it returns early exactly
    when [handleDrop] does on them, and otherwise posts and queues the
    array that [handleDrop] computes from them. *)
Lemma Queued_handleDrop_cases (targetId : Z) (c : Queued.Comp) :
  (Queued.handleDrop targetId c = c
   ∧ handleDrop targetId (Queued.shown c) = Queued.shown c)
  ∨ ∃ newItems,
      newItems ≡ₚ items (Queued.shown c)
      ∧ Queued.handleDrop targetId c
        = Queued.live (apiPost (SaveOrder (id <$> newItems)))
            (Queued.enqueue (Queued.USetItems newItems) c)
      ∧ handleDrop targetId (Queued.shown c)
        = apiPost (SaveOrder (id <$> newItems))
            (setItems newItems (Queued.shown c)).
Proof.
  destruct c as [st q]. cbn [Queued.shown].
  unfold Queued.handleDrop, handleDrop. cbn [Queued.shown].
  destruct (dragItem st) as [d|]; [| by left].
  destruct (d =? targetId)%Z; [by left |].
  destruct (findIndex_cases (λ item, (id item =? d)%Z) (items st))
    as [[E _] | (di & x & E & L & P)]; rewrite E; [by left |].
  destruct (findIndex_cases (λ item, (id item =? targetId)%Z) (items st))
    as [[E' _] | (ti & y & E' & L' & P')]; rewrite E'.
  { rewrite orb_true_r. by left. }
  replace (Z.of_nat di =? -1)%Z with false by lia.
  replace (Z.of_nat ti =? -1)%Z with false by lia.
  simpl orb. cbv iota.
  rewrite (splice_remove_at _ _ _ L).
  assert (Hti : ti ≤ length (delete di (items st))).
  { rewrite length_delete; [| by eexists].
    apply lookup_lt_Some in L'. lia. }
  rewrite (splice_insert_at _ _ x Hti).
  right. eexists. split_and!; [| reflexivity | reflexivity].
  rewrite <- Permutation_middle, take_drop.
  symmetry. by apply delete_Permutation.
Qed.

(** ** The schedule with a render after every event *)

(** [step] is the component on the schedule where a render follows every
    event: an event and a render, from a state with nothing waiting, lead
    to the state that [step] gives, with nothing waiting. *)
Lemma step_is_event_then_render (st : State) (ev : Event) (st' : State) :
  step st ev = Some st' →
  Queued.run [Queued.Do ev; Queued.Render] (Queued.mkComp st [])
  = Some (Queued.mkComp st' []).
Proof.
  intros Hstep. destruct ev; simpl in Hstep.
  - by simplify_eq.
  - by simplify_eq.
  - simpl. destruct (inflight st !! i); simpl in *; [| done].
    by simplify_eq.
  - simpl. destruct (inflight st !! i); simpl in *; [| done].
    by simplify_eq.
  - simplify_eq. simpl. unfold Queued.handleScroll, handleScroll.
    cbn [Queued.shown]. destruct current; [| done].
    destruct (negb _); [| done]. by destruct (_ <=? _)%Z.
  - by simplify_eq.
  - by simplify_eq.
  - simplify_eq. cbn [Queued.run Queued.step]. unfold mbind, option_bind.
    destruct (Queued_handleDrop_cases targetId (Queued.mkComp st []))
      as [[E E'] | (n & _ & E & E')]; cbn [Queued.shown] in E';
      rewrite E, E'; reflexivity.
  - simplify_eq. simpl. unfold Queued.handleSearchChange, handleSearchChange.
    by destruct (String.eqb _ _).
Qed.

(** ** Clearing the search box *)

(** Only a fulfilled fetch leaves a new value for [originalItems]. *)
Lemma Queued_step_original (c c' : Queued.Comp) (e : Queued.Ev) :
  Queued.step c e = Some c' →
  Queued.queuedOriginal (Queued.pending c') (originalItems (Queued.shown c'))
  = Queued.lastFetched [e]
      (Queued.queuedOriginal (Queued.pending c)
         (originalItems (Queued.shown c))).
Proof.
  destruct c as [st q].
  destruct e as [ev | | i prev]; [destruct ev | |]; simpl; intros H.
  - simplify_eq. simpl. unfold fetchEffect. by destruct (loadingRef st).
  - simplify_eq. simpl. by rewrite queuedOriginal_app.
  - destruct (inflight st !! i); simpl in H; [| done]. simplify_eq. simpl.
    by rewrite !queuedOriginal_app.
  - destruct (inflight st !! i); simpl in H; [| done]. by simplify_eq.
  - simplify_eq. unfold Queued.handleScroll. cbn [Queued.shown].
    destruct current; [| done]. destruct (negb _); [| done].
    destruct (_ <=? _)%Z; [| done]. simpl. by rewrite queuedOriginal_app.
  - simplify_eq. simpl. by rewrite queuedOriginal_app.
  - by simplify_eq.
  - simplify_eq.
    destruct (Queued_handleDrop_cases targetId (Queued.mkComp st q))
      as [[E _] | (n & _ & E & _)]; rewrite E; [done |].
    simpl. by rewrite queuedOriginal_app.
  - simplify_eq. unfold Queued.handleSearchChange.
    destruct (String.eqb _ _); simpl; by rewrite !queuedOriginal_app.
  - simplify_eq. simpl. apply applyAll_originalItems.
  - destruct (Queued.toggleWaiting i q); by simplify_eq.
Qed.

Lemma Queued_run_original (evs : list Queued.Ev) (c c' : Queued.Comp) :
  Queued.run evs c = Some c' →
  Queued.queuedOriginal (Queued.pending c') (originalItems (Queued.shown c'))
  = Queued.lastFetched evs
      (Queued.queuedOriginal (Queued.pending c)
         (originalItems (Queued.shown c))).
Proof.
  revert c. induction evs as [|e evs IH]; intros c Hrun; simpl in Hrun.
  - by simplify_eq.
  - destruct (Queued.step c e) as [c1|] eqn:E; simpl in Hrun; [| done].
    rewrite (IH _ Hrun), (Queued_step_original _ _ _ E).
    destruct e as [ev | |]; [by destruct ev | done | done].
Qed.

Example run_clear_before_render :
  Queued.run evsClearBeforeRender Queued.init = Some stClearBeforeRender.
Proof. vm_compute. reflexivity. Qed.

(** C3 (as stated) fails when the search box is cleared after a response
    has arrived and before it is rendered: page 2, with the items 3 and 4,
    is the last fetched page and becomes [originalItems], while [items]
    is set to the [originalItems] of the last render, the items 1 and 2. *)
Lemma clear_before_render_shows_older_page :
  Queued.run evsClearBeforeRender Queued.init = Some stClearBeforeRender
  ∧ items (Queued.shown stClearBeforeRender) = [item1; item2]
  ∧ originalItems (Queued.shown stClearBeforeRender) = [item3; item4]
  ∧ Queued.lastFetched evsClearBeforeRender [] = [item3; item4]
  ∧ items (Queued.shown stClearBeforeRender)
    ≠ originalItems (Queued.shown stClearBeforeRender).
Proof.
  split_and!; [vm_compute; reflexivity | reflexivity | reflexivity
              | reflexivity | discriminate].
Qed.

(** C3 (as amended).  In every state the component can reach,
    [onQueryChange ("")] issues no request and, at the next render, [page]
    is 1, [query] is empty and [items] is the [originalItems] of the
    render in which the box was cleared; that is the list of items of the
    last fulfilled fetch whenever every fulfilled fetch had been rendered
    by then.  [originalItems] itself always ends as the list of the last
    fulfilled fetch. *)
Theorem clear_restores_rendered_original
    (evs : list Queued.Ev) (c : Queued.Comp) :
  Queued.run evs Queued.init = Some c →
  page (Queued.shown (Queued.render (Queued.handleSearchChange "" c))) = 1%Z
  ∧ query (Queued.shown (Queued.render (Queued.handleSearchChange "" c)))
    = ""
  ∧ items (Queued.shown (Queued.render (Queued.handleSearchChange "" c)))
    = originalItems (Queued.shown c)
  ∧ inflight (Queued.shown (Queued.handleSearchChange "" c))
    = inflight (Queued.shown c)
  ∧ loadingRef (Queued.shown (Queued.handleSearchChange "" c))
    = loadingRef (Queued.shown c)
  ∧ originalItems
      (Queued.shown (Queued.render (Queued.handleSearchChange "" c)))
    = Queued.lastFetched evs []
  ∧ (Queued.fetchesShown c →
     items (Queued.shown (Queued.render (Queued.handleSearchChange "" c)))
     = Queued.lastFetched evs []).
Proof.
  intros Hrun.
  pose proof (Queued_run_original _ _ _ Hrun) as Hlast.
  cbn [Queued.init Queued.pending Queued.shown Queued.queuedOriginal
       originalItems init] in Hlast.
  destruct c as [st q].
  cbn [Queued.shown Queued.pending Queued.render Queued.handleSearchChange
       Queued.enqueue String.eqb] in *.
  rewrite <- !app_assoc. cbn [app].
  rewrite !applyAll_app.
  split_and!; try reflexivity.
  - change (originalItems (Queued.applyAll q st) = Queued.lastFetched evs []).
    rewrite applyAll_originalItems. exact Hlast.
  - intros Hshown. rewrite <- Hlast.
    change (originalItems st = Queued.queuedOriginal q (originalItems st)).
    symmetry. by apply queuedOriginal_shown.
Qed.

Example run_search_scrolled :
  Queued.run evsSearchScrolled Queued.init = Some stSearchScrolled.
Proof. vm_compute. reflexivity. Qed.

Lemma clear_restores_rendered_original_witness :
  page (Queued.shown
          (Queued.render (Queued.handleSearchChange "" stSearchScrolled)))
  = 1%Z
  ∧ query (Queued.shown
             (Queued.render (Queued.handleSearchChange "" stSearchScrolled)))
    = ""
  ∧ items (Queued.shown
             (Queued.render (Queued.handleSearchChange "" stSearchScrolled)))
    = originalItems (Queued.shown stSearchScrolled)
  ∧ inflight (Queued.shown (Queued.handleSearchChange "" stSearchScrolled))
    = inflight (Queued.shown stSearchScrolled)
  ∧ loadingRef (Queued.shown (Queued.handleSearchChange "" stSearchScrolled))
    = loadingRef (Queued.shown stSearchScrolled)
  ∧ originalItems
      (Queued.shown
         (Queued.render (Queued.handleSearchChange "" stSearchScrolled)))
    = Queued.lastFetched evsSearchScrolled []
  ∧ (Queued.fetchesShown stSearchScrolled →
     items (Queued.shown
              (Queued.render (Queued.handleSearchChange "" stSearchScrolled)))
     = Queued.lastFetched evsSearchScrolled []).
Proof.
  apply (clear_restores_rendered_original evsSearchScrolled stSearchScrolled).
  vm_compute. reflexivity.
Defined.

(** After two pages, clearing the box leaves the second page only. *)
Example clear_search_after_scroll :
  items (Queued.shown stSearchScrolled) = [item1; item2; item3; item4]
  ∧ Queued.fetchesShown stSearchScrolled
  ∧ items (Queued.shown
             (Queued.render (Queued.handleSearchChange "" stSearchScrolled)))
    = [item3; item4].
Proof. split_and!; [done | constructor | done]. Qed.

(** ** Unique ids between renders *)

Lemma applyUpdate_uniqueIds (u : Queued.Update) (st : State) :
  uniqueIds st → Queued.carriesUnique u →
  Queued.freshQueue [u] st → uniqueIds (Queued.applyUpdate u st).
Proof.
  intros [Hi Ho] Hu [Hf _]. unfold uniqueIds.
  destruct u; simpl in *; try done.
  split; [| done].
  destruct (pg =? 1)%Z; [done |].
  unfold ids in *. rewrite fmap_app. apply NoDup_app.
  split_and!; [done | | done].
  intros x Hx Hx'. by apply (Hf eq_refl x Hx').
Qed.

Lemma applyAll_uniqueIds (q : list Queued.Update) (st : State) :
  uniqueIds st → Forall Queued.carriesUnique q →
  Queued.freshQueue q st → uniqueIds (Queued.applyAll q st).
Proof.
  revert st. induction q as [|u q IH]; intros st Hst Hq Hf; [done |].
  apply Forall_cons in Hq as [Hu Hq]. destruct Hf as [Hf1 Hf2].
  change (Queued.applyAll (u :: q) st)
    with (Queued.applyAll q (Queued.applyUpdate u st)).
  apply IH; [| done | done].
  apply applyUpdate_uniqueIds; [done | done |]. by split.
Qed.

(** One event keeps the ids distinct, in what is shown and in what is
    waiting, when it is fresh. *)
Lemma Queued_step_uniqueIds (c : Queued.Comp) (e : Queued.Ev)
    (c' : Queued.Comp) :
  uniqueIds (Queued.shown c) ∧ Forall Queued.carriesUnique (Queued.pending c) →
  Queued.freshStep c e → Queued.step c e = Some c' →
  uniqueIds (Queued.shown c')
  ∧ Forall Queued.carriesUnique (Queued.pending c').
Proof.
  destruct c as [st q]. cbn [Queued.shown Queued.pending].
  intros [Hst Hq] Hfresh Hstep.
  destruct e as [ev | | i prev]; [destruct ev | |]; simpl in Hstep.
  - simplify_eq. simpl. split; [| done].
    unfold fetchEffect. by destruct (loadingRef st).
  - simplify_eq. simpl. split; [done |].
    apply Forall_app. split; [done |]. by repeat constructor.
  - destruct (inflight st !! i); simpl in Hstep; [| done]. simplify_eq.
    simpl in Hfresh. simpl. split; [done |].
    rewrite !Forall_app. split_and!; try done; by repeat constructor.
  - destruct (inflight st !! i); simpl in Hstep; [| done]. by simplify_eq.
  - simplify_eq. unfold Queued.handleScroll. cbn [Queued.shown].
    destruct current; [| done]. destruct (negb _); [| done].
    destruct (_ <=? _)%Z; [| done]. simpl. split; [done |].
    apply Forall_app. split; [done |]. by repeat constructor.
  - simplify_eq. simpl. split; [done |].
    apply Forall_app. split; [done |]. by repeat constructor.
  - by simplify_eq.
  - simplify_eq.
    destruct (Queued_handleDrop_cases targetId (Queued.mkComp st q))
      as [[E _] | (n & Hn & E & _)]; rewrite E; [done |].
    simpl. split; [done |].
    apply Forall_app. split; [done |]. repeat constructor. simpl.
    cbn [Queued.shown] in Hn. unfold ids. rewrite Hn. apply Hst.
  - simplify_eq. unfold Queued.handleSearchChange.
    destruct (String.eqb _ _); simpl; (split; [done |]);
      rewrite !Forall_app; split_and!; try done; repeat constructor.
    simpl. apply Hst.
  - simplify_eq. simpl. split; [| done].
    by apply applyAll_uniqueIds.
  - destruct (Queued.toggleWaiting i q); by simplify_eq.
Qed.

Lemma Queued_run_uniqueIds (evs : list Queued.Ev) (c c' : Queued.Comp) :
  uniqueIds (Queued.shown c) ∧ Forall Queued.carriesUnique (Queued.pending c) →
  Queued.freshRun evs c → Queued.run evs c = Some c' →
  uniqueIds (Queued.shown c')
  ∧ Forall Queued.carriesUnique (Queued.pending c').
Proof.
  revert c. induction evs as [|e evs IH]; intros c Hc Hf Hrun;
    simpl in Hrun, Hf.
  - by simplify_eq.
  - destruct Hf as [Hf1 Hf2].
    destruct (Queued.step c e) as [c1|] eqn:E; simpl in Hrun; [| done].
    eapply (IH c1); [| done | done]. by eapply Queued_step_uniqueIds.
Qed.

(** C9 (as amended).  In every state reached by a run in which every
    fulfilled response carries pairwise distinct ids and in which, when
    the fetched items are appended, none of their ids is in the array they
    are appended to, the ids of the [items] that are shown are pairwise
    distinct, and so are those of every array that waits to be shown;
    replace, append, restore on a cleared query and reorder all preserve
    this. *)
Theorem unique_ids_under_fresh_appends
    (evs : list Queued.Ev) (c : Queued.Comp) :
  Queued.run evs Queued.init = Some c → Queued.freshRun evs Queued.init →
  NoDup (ids (items (Queued.shown c)))
  ∧ NoDup (ids (originalItems (Queued.shown c)))
  ∧ Forall Queued.carriesUnique (Queued.pending c).
Proof.
  intros Hrun Hfresh.
  destruct (Queued_run_uniqueIds evs Queued.init c) as [[Hi Ho] Hq];
    [| done | done | done].
  split; [split; apply NoDup_nil_2 | constructor].
Qed.

Lemma unique_ids_under_fresh_appends_witness :
  NoDup (ids (items (Queued.shown stSearchScrolled)))
  ∧ NoDup (ids (originalItems (Queued.shown stSearchScrolled)))
  ∧ Forall Queued.carriesUnique (Queued.pending stSearchScrolled).
Proof.
  apply (unique_ids_under_fresh_appends evsSearchScrolled stSearchScrolled).
  - vm_compute. reflexivity.
  - vm_compute. split_and!; try exact I; try solve_NoDup; try discriminate.
    intros _ x Hx%list_elem_of_In Hx'%list_elem_of_In.
    simpl in Hx, Hx'. intuition lia.
Defined.

(** ** Runs with events between a response and its render *)

(** A drop before the render reads the array of the last render: the
    fetched page is overwritten by the reordered older page, and the
    older order is posted. *)
Example drop_before_render :
  ∃ c, Queued.run evsDropBeforeRender Queued.init = Some c
       ∧ items (Queued.shown c) = [item2; item1]
       ∧ originalItems (Queued.shown c) = [item3; item4]
       ∧ posts (Queued.shown c) = [SaveOrder [2%Z; 1%Z]].
Proof. eexists. split; [vm_compute; reflexivity |]. by split_and!. Qed.

(** Appending the items 1 and 5 to that array repeats the id 1, and the
    run is not fresh. *)
Example drop_then_append_repeats_id :
  (∃ c, Queued.run evsDropThenAppend Queued.init = Some c
        ∧ ids (items (Queued.shown c)) = [2%Z; 1%Z; 1%Z; 5%Z])
  ∧ ¬ Queued.freshRun evsDropThenAppend Queued.init.
Proof.
  split.
  - eexists. split; [vm_compute; reflexivity | reflexivity].
  - vm_compute. intros H.
    do 12 (destruct H as [_ H]). destruct H as [[H _] _].
    apply (H eq_refl 1%Z); [apply list_elem_of_In | apply list_elem_of_In];
      simpl; tauto.
Qed.

(** One click, two requests: the first reports a selection that is never
    shown. *)
Example toggle_run_twice :
  ∃ c, Queued.run evsToggleRunTwice Queued.init = Some c
       ∧ elements (selected (Queued.shown c)) = [2%Z; 1%Z]
       ∧ posts (Queued.shown c)
         = [SaveSelection [1%Z]; SaveSelection [2%Z; 1%Z]].
Proof.
  eexists. split; [vm_compute; reflexivity |].
  split; vm_compute; reflexivity.
Qed.
